(** * aiengineanq: the retrieval-and-routing pipeline of [index.js]

    A shallow embedding of the server's core ([cosineSimilarity],
    [classifyRole], [validateQuestion], [loadKnowledgeBase],
    [findRelevantChunks] and the [/ask] route) together with the part of the
    JavaScript runtime those functions rely on.

    - Numbers are IEEE 754 binary64 values: the primitive [float] type, whose
      operations are specified by the standard library's [FloatAxioms].
    - Strings are sequences of UTF-16 code units.
    - What the language leaves to the engine -- the case tables of
      [toLowerCase] outside ASCII, the order [sort] gives under a comparator
      that is not consistent -- is a parameter of the world.
    - A call that may throw returns a [completion]; code that reads or writes
      the module-level [vectorStore], or talks to a collaborator, runs in the
      monad [M] over the server state. *)

From Stdlib Require Import Reals Lra.
From Stdlib Require Import String Ascii.
From Stdlib Require Import ZArith NArith List Bool Lia Floats.
From Stdlib Require Import Sorted Permutation.
Import ListNotations.

Set Implicit Arguments.

(** ** The JavaScript runtime, as far as the program uses it *)

Module JS.

(** *** Strings *)

Definition codeUnit := N.
Definition jsString := list codeUnit.

(** A literal of the source text, given by its ASCII characters. *)
Definition lit (s : string) : jsString :=
  List.map N_of_ascii (list_ascii_of_string s).

Definition string_eqb (s t : jsString) : bool :=
  if list_eq_dec N.eq_dec s t then true else false.

(** [WhiteSpace] and [LineTerminator] of ECMAScript: what [trim] strips. *)
Definition isWhiteSpace (c : codeUnit) : bool :=
  ((9 <=? c) && (c <=? 13)          (* TAB, LF, VT, FF, CR *)
   || (c =? 32)                     (* SPACE *)
   || (c =? 160)                    (* NO-BREAK SPACE *)
   || (c =? 5760)                   (* U+1680 *)
   || ((8192 <=? c) && (c <=? 8202)) (* U+2000 .. U+200A *)
   || (c =? 8232) || (c =? 8233)    (* LINE / PARAGRAPH SEPARATOR *)
   || (c =? 8239) || (c =? 8287)    (* U+202F, U+205F *)
   || (c =? 12288)                  (* U+3000 *)
   || (c =? 65279))%N.              (* U+FEFF *)

Fixpoint trimStart (s : jsString) : jsString :=
  match s with
  | c :: s' => if isWhiteSpace c then trimStart s' else s
  | [] => []
  end.

Definition trimEnd (s : jsString) : jsString := rev (trimStart (rev s)).

Definition trim (s : jsString) : jsString := trimEnd (trimStart s).

Definition isAscii (c : codeUnit) : bool := (c <? 128)%N.

Definition asciiLower (c : codeUnit) : codeUnit :=
  if ((65 <=? c) && (c <=? 90))%N then (c + 32)%N else c.

(** [String.prototype.toLowerCase].  On text made of ASCII code units it
    maps [A-Z] to [a-z] and nothing else; on any other text the result is
    fixed by the Unicode case tables of the host, which are not part of the
    program: they are the parameter [unicodeLower]. *)
Definition toLowerCase (unicodeLower : jsString -> jsString)
           (s : jsString) : jsString :=
  if forallb isAscii s then List.map asciiLower s else unicodeLower s.

(** [s.replace(pat, by)] with a one-unit string pattern: only the first
    occurrence is replaced. *)
Fixpoint replaceFirst (pat by_ : codeUnit) (s : jsString) : jsString :=
  match s with
  | [] => []
  | c :: s' => if (c =? pat)%N then by_ :: s' else c :: replaceFirst pat by_ s'
  end.

(** [arr.includes(x)] on an array of strings. *)
Definition includes (arr : list jsString) (x : jsString) : bool :=
  existsb (string_eqb x) arr.

(** *** Exceptions *)

Inductive jsError : Type :=
| Error (message : jsString).

Inductive completion (A : Type) : Type :=
| Normal (a : A)
| Throw (e : jsError).
Arguments Throw {A} e.

(** *** Arrays *)

(** [arr.reduce((acc, x, i) => f(acc, x, i), init)]. *)
Fixpoint reduce_from {A B : Type} (f : B -> A -> nat -> B)
         (arr : list A) (i : nat) (acc : B) : B :=
  match arr with
  | [] => acc
  | x :: arr' => reduce_from f arr' (S i) (f acc x i)
  end.

Definition reduce {A B : Type} (f : B -> A -> nat -> B)
           (arr : list A) (init : B) : B :=
  reduce_from f arr 0 init.

(** [vec[i]] used as an operand of [*]: a read past the end is
    [undefined], which arithmetic turns into NaN. *)
Definition at_ (vec : list float) (i : nat) : float := nth i vec nan.

(** [arr.slice(0, k)] for an integer [k]; a negative [k] counts from the
    end. *)
Definition slice0 {A : Type} (k : Z) (arr : list A) : list A :=
  if (k <? 0)%Z
  then firstn (Z.to_nat (Z.max (Z.of_nat (length arr) + k) 0)) arr
  else firstn (Z.to_nat k) arr.

(** [arr.sort(cmp)].  The engine reads an answer of the comparator by its
    sign, a NaN answer as [+0] ([SortCompare]): a positive answer on
    [(a, b)] puts [b] first, a negative one [a], and zero leaves the two as
    they are.

    When the comparator is a consistent ordering of the elements of the
    array, the language fixes the result: the elements in that order, equal
    ones in the order they had, for the sort is stable.  [stableSort] is
    that result: each element is placed, from the last to the first, in
    front of the sorted rest and moved right past the elements that the
    comparator puts before it.

    When the comparator is not consistent on the array -- as
    [b.score - a.score] is when it answers NaN on some pairs and orders
    others -- the language leaves the order to the engine.  The engine sees
    nothing of the elements but the answers of the comparator: its choice
    is the parameter [engineOrder], which reads the table of answers and
    gives each position of the array a rank; the elements come out by rank,
    those of one rank in the order they had, and a position left without a
    rank has rank 0. *)
Fixpoint place {A : Type} (x : nat * A) (placed : list (nat * A))
  : list (nat * A) :=
  match placed with
  | [] => [x]
  | y :: rest =>
      if (fst y <? fst x)%nat then y :: place x rest else x :: placed
  end.

Definition arrange {A : Type} (ranks : list nat) (arr : list A) : list A :=
  List.map snd
           (fold_right place []
                       (combine (ranks ++ repeat 0%nat (length arr)) arr)).

Section Sort.
Variable A : Type.
Variable cmp : A -> A -> float.
Variable engineOrder : list (list float) -> list nat.

Definition sortCompare (a b : A) : comparison :=
  if (0 <? cmp a b)%float then Gt
  else if (cmp a b <? 0)%float then Lt
       else Eq.

Definition answers_ (c : comparison) (a b : A) : bool :=
  match sortCompare a b, c with
  | Eq, Eq | Lt, Lt | Gt, Gt => true
  | _, _ => false
  end.

(** The requirements on a consistent comparator, for three elements:
    [a = a]; [a = b] gives [b = a]; and [=], [<] and [>] are each
    transitive. *)
Definition consistentAt (a b c : A) : bool :=
  answers_ Eq a a
  && implb (answers_ Eq a b) (answers_ Eq b a)
  && implb (answers_ Eq a b && answers_ Eq b c) (answers_ Eq a c)
  && implb (answers_ Lt a b && answers_ Lt b c) (answers_ Lt a c)
  && implb (answers_ Gt a b && answers_ Gt b c) (answers_ Gt a c).

Definition consistent (arr : list A) : bool :=
  forallb (fun a =>
             forallb (fun b => forallb (fun c => consistentAt a b c) arr) arr)
          arr.

Definition putsSecondFirst (a b : A) : bool := (0 <? cmp a b)%float.

Fixpoint insert (x : A) (sorted : list A) : list A :=
  match sorted with
  | [] => [x]
  | y :: rest =>
      if putsSecondFirst x y then y :: insert x rest else x :: sorted
  end.

Definition stableSort (arr : list A) : list A := fold_right insert [] arr.

(** The comparator's answer on each pair of positions of the array. *)
Definition answers (arr : list A) : list (list float) :=
  List.map (fun a => List.map (cmp a) arr) arr.

Definition sort (arr : list A) : list A :=
  if consistent arr then stableSort arr
  else arrange (engineOrder (answers arr)) arr.
End Sort.

End JS.
Import JS.

Open Scope float_scope.

(** ** Cosine similarity ([index.js], lines 32-38) *)

Definition cosineSimilarity (vecA vecB : list float) : completion float :=
  if negb (length vecA =? length vecB)%nat
  then Throw (Error (lit "Vectors must have the same length"))
  else
    let dot := reduce (fun sum a i => sum + a * at_ vecB i) vecA 0 in
    let magA := sqrt (reduce (fun sum a _ => sum + a * a) vecA 0) in
    let magB := sqrt (reduce (fun sum b _ => sum + b * b) vecB 0) in
    Normal (dot / (magA * magB)).

(** The three reductions of [cosineSimilarity], by name. *)
Definition dotOf (vecA vecB : list float) : float :=
  reduce (fun sum a i => sum + a * at_ vecB i) vecA 0.

Definition sumSquares (vec : list float) : float :=
  reduce (fun sum a _ => sum + a * a) vec 0.

(** A vector all of whose components are zeros ([+0] or [-0]). *)
Definition zeroVector (vec : list float) : bool :=
  forallb (fun x => x =? 0) vec.

(** The value [cosineSimilarity] returns on vectors of one length. *)
Definition cosineValue (vecA vecB : list float) : float :=
  dotOf vecA vecB / (sqrt (sumSquares vecA) * sqrt (sumSquares vecB)).

(** ** Collaborators and server state *)

(** One record of the vector store: [{ embedding, text, fileName }]. *)
Record Chunk : Type := mkChunk {
  embedding : list float;
  text : jsString;
  fileName : jsString
}.

(** [{ ...item, score }]: a record of the store with its score. *)
Record ScoredChunk : Type := mkScored {
  item : Chunk;
  score : float
}.

(** Everything outside the process: the two LangChain chains, the embedding
    model, the chat endpoint, the text splitter, the file system, and the
    configuration read from the environment.  A collaborator that fails
    throws.  The chains are given by the [text] of their result; the chat
    endpoint by [data.message?.content], absent when the reply has none.
    With them, what the program leaves to the JavaScript engine: the case
    tables of [toLowerCase] and the order [sort] gives under a comparator
    that is not consistent. *)
Record World : Type := mkWorld {
  unicodeLower : jsString -> jsString;
  sortOrder : list (list float) -> list nat;
  KNOWLEDGE_FILES : list jsString;
  validationChain : jsString -> completion jsString;
  roleChain : jsString -> completion jsString;
  embedQuery : jsString -> completion (list float);
  existsSync : jsString -> bool;
  readFileSync : jsString -> completion jsString;
  createDocuments : jsString -> completion (list jsString);
  chatModel : jsString -> jsString -> completion (option jsString)
}.

(** Calls that leave the process, in the order they are made. *)
Inductive Call : Type :=
| CallValidation (input : jsString)
| CallRole (input : jsString)
| CallEmbed (input : jsString)
| CallSplit (input : jsString)
| CallChat (systemPrompt userMessage : jsString).

(** [vectorStore] is the module-level array (line 142); [calls] records the
    collaborator calls made so far. *)
Record State : Type := mkState {
  vectorStore : list Chunk;
  calls : list Call
}.

Definition M (A : Type) : Type := State -> completion A * State.

Definition ret {A : Type} (a : A) : M A := fun s => (Normal a, s).

Definition throw {A : Type} (e : jsError) : M A := fun s => (Throw e, s).

Definition bind {A B : Type} (m : M A) (k : A -> M B) : M B :=
  fun s =>
    match m s with
    | (Normal a, s') => k a s'
    | (Throw e, s') => (Throw e, s')
    end.

Declare Scope js_scope.
Delimit Scope js_scope with js.
Notation "x <- m ;; k" := (bind m (fun x => k))
  (at level 61, m at next level, right associativity) : js_scope.
Notation "m ;;; k" := (bind m (fun _ => k))
  (at level 61, right associativity) : js_scope.
Open Scope js_scope.

(** [try { body } catch (err) { handler }]. *)
Definition try_catch {A : Type} (body : M A) (handler : jsError -> M A) : M A :=
  fun s =>
    match body s with
    | (Normal a, s') => (Normal a, s')
    | (Throw e, s') => handler e s'
    end.

Definition liftC {A : Type} (c : completion A) : M A := fun s => (c, s).

Definition getStore : M (list Chunk) := fun s => (Normal (vectorStore s), s).

(** [vectorStore.push(c)]. *)
Definition push (c : Chunk) : M unit :=
  fun s => (Normal tt, mkState (vectorStore s ++ [c]) (calls s)).

(** An awaited call to a collaborator: it is recorded, then completes. *)
Definition await {A : Type} (c : Call) (r : completion A) : M A :=
  fun s => (r, mkState (vectorStore s) (calls s ++ [c])).

(** ** Role classification ([index.js], lines 42-97) *)

Definition agentPrompts : list (jsString * jsString) :=
  [ (lit "customer_support",
     lit "You are a helpful and empathetic customer support agent. ONLY answer from the given context. If the answer is not found, say: 'will forward this to our customer agent'.");
    (lit "sales_agent",
     lit "You are a persuasive and friendly sales representative. ONLY answer from the given context. If the answer is not found, say: 'will forward this to our sales agent'.");
    (lit "marketing_agent",
     lit "You are a creative and data-driven marketing strategist. ONLY answer from the given context. If the answer is not found, say: 'will forward this to our marketing agent'.");
    (lit "technical_expert",
     lit "You are a precise and experienced technical expert. ONLY answer from the given context. If the answer is not found, say: 'will forward this to our technical expert'.");
    (lit "general_info",
     lit "You are a polite and intelligent assistant helping with general queries. ONLY answer from the given context. If the answer is not found, say: 'will forward this to our general info agent'.") ].

(** The five role labels, the keys of [agentPrompts]. *)
Definition roleLabels : list jsString :=
  [ lit "customer_support"; lit "sales_agent"; lit "marketing_agent";
    lit "technical_expert"; lit "general_info" ].

(** [Object.keys(obj)]: the keys in insertion order. *)
Definition Object_keys {V : Type} (obj : list (jsString * V)) : list jsString :=
  List.map fst obj.

(** [obj[key]]: absent keys read as [undefined]. *)
Fixpoint Object_get {V : Type} (obj : list (jsString * V)) (key : jsString)
  : option V :=
  match obj with
  | [] => None
  | (k, v) :: obj' => if string_eqb k key then Some v else Object_get obj' key
  end.

Definition classifyRole (w : World) (query : jsString) : M jsString :=
  result_text <- await (CallRole query) (roleChain w query) ;;
  let label := toLowerCase (unicodeLower w) (trim result_text) in
  let allowed := Object_keys agentPrompts in
  ret (if includes allowed label then label else lit "general_info").

(** ** Question validation ([index.js], lines 101-138) *)

Definition validateQuestion (w : World) (query : jsString) : M bool :=
  result_text <- await (CallValidation query) (validationChain w query) ;;
  let label := toLowerCase (unicodeLower w) (trim result_text) in
  ret (string_eqb label (lit "valid")).

(** ** Knowledge base ([index.js], lines 142-187) *)

(** The inner loop, [for (const doc of docs)]. *)
Fixpoint embedDocs (w : World) (path : jsString) (docs : list jsString)
  : M unit :=
  match docs with
  | [] => ret tt
  | pageContent :: docs' =>
      embedding <- await (CallEmbed pageContent) (embedQuery w pageContent) ;;
      push (mkChunk embedding pageContent path) ;;;
      embedDocs w path docs'
  end.

(** The outer loop, [for (const path of filePaths)]. *)
Fixpoint loadFiles (w : World) (filePaths : list jsString) : M unit :=
  match filePaths with
  | [] => ret tt
  | path :: filePaths' =>
      if negb (existsSync w path) then loadFiles w filePaths'
      else
        raw <- liftC (readFileSync w path) ;;
        let text := trim raw in
        match text with
        | [] => loadFiles w filePaths'
        | _ :: _ =>
            docs <- await (CallSplit text) (createDocuments w text) ;;
            embedDocs w path docs ;;;
            loadFiles w filePaths'
        end
  end.

Definition loadKnowledgeBase (w : World) (filePaths : list jsString)
  : M (list Chunk) :=
  store <- getStore ;;
  if (0 <? length store)%nat then ret store
  else loadFiles w filePaths ;;; getStore.

(** [vectorStore.map(item => ({ ...item, score: cosineSimilarity(q, item.embedding) }))]:
    the first call that throws ends the map. *)
Fixpoint scoreAll (queryEmbedding : list float) (store : list Chunk)
  : completion (list ScoredChunk) :=
  match store with
  | [] => Normal []
  | item :: store' =>
      match cosineSimilarity queryEmbedding (embedding item) with
      | Throw e => Throw e
      | Normal s =>
          match scoreAll queryEmbedding store' with
          | Throw e => Throw e
          | Normal scored => Normal (mkScored item s :: scored)
          end
      end
  end.

(** The comparator [(a, b) => b.score - a.score]. *)
Definition byScoreDesc (a b : ScoredChunk) : float := score b - score a.

(** [topResults[0]?.score < threshold]: with no first element the left side
    is [undefined], and the comparison is false; so it is when the score is
    NaN. *)
Definition topBelow (topResults : list ScoredChunk) (threshold : float) : bool :=
  match topResults with
  | [] => false
  | top :: _ => score top <? threshold
  end.

Definition topResultsOf (w : World) (topK : Z) (scored : list ScoredChunk)
  : list ScoredChunk :=
  slice0 topK (sort byScoreDesc (sortOrder w) scored).

(** The [console.log] of line 180 has no part in the result and is left
    out. *)
Definition findRelevantChunks (w : World) (question : jsString)
           (topK : Z) (threshold : float) : M (list ScoredChunk) :=
  queryEmbedding <- await (CallEmbed question) (embedQuery w question) ;;
  store <- getStore ;;
  scored <- liftC (scoreAll queryEmbedding store) ;;
  let topResults := topResultsOf w topK scored in
  if topBelow topResults threshold then ret [] else ret topResults.

(** The defaults of the parameter list, [topK = 3, threshold = 0.3]. *)
Definition default_topK : Z := 3.
Definition default_threshold : float := 0x1.3333333333333p-2.

(** ** The [/ask] route ([index.js], lines 191-256) *)

(** What the handler sends: [res.status(st).json({ error })] or
    [res.status(st).send(body)], 200 when no status is set. *)
Inductive Response : Type :=
| SendJsonError (status : Z) (error : jsString)
| Send (status : Z) (body : jsString).

Definition nl : jsString := [10%N].
Definition dquote : jsString := [34%N].
Definition crossMark : jsString := [10060%N].   (* U+274C *)

Definition underscore : codeUnit := 95%N.
Definition space : codeUnit := 32%N.

(** [parts.join(sep)]. *)
Fixpoint join (sep : jsString) (parts : list jsString) : jsString :=
  match parts with
  | [] => []
  | [p] => p
  | p :: parts' => p ++ sep ++ join sep parts'
  end.

Definition forwardMessage (role : jsString) : jsString :=
  lit "will forward this to our " ++ replaceFirst underscore space role.

Definition contextOf (relevantChunks : list ScoredChunk) : jsString :=
  join (nl ++ nl)
       (List.map (fun r => lit "From " ++ fileName (item r) ++ lit ":" ++ nl
                           ++ firstn 600 (text (item r)))
                 relevantChunks).

Definition systemPromptOf (basePrompt role context : jsString) : jsString :=
  nl ++ basePrompt ++ nl ++ nl
     ++ lit "RULES:" ++ nl
     ++ lit "- ONLY answer using the Reference Context." ++ nl
     ++ lit "- If answer not found in context reply exactly: "
     ++ dquote ++ forwardMessage role ++ dquote ++ lit "." ++ nl ++ nl
     ++ lit "Reference Context:" ++ nl
     ++ context ++ nl.

Definition clarification : jsString :=
  lit "Could you provide more details about your question?".

Definition noContent : jsString := crossMark ++ lit " No content returned.".

Definition internalFailure : jsString := crossMark ++ lit " An error occurred.".

(** The [try] block of the handler, steps 2 to 5. *)
Definition askBody (w : World) (query : jsString) : M Response :=
  (* Step 2: classify role *)
  role <- classifyRole w query ;;
  let basePrompt :=
    match Object_get agentPrompts role with
    | Some p => p
    | None =>
        match Object_get agentPrompts (lit "general_info") with
        | Some p => p
        | None => []
        end
    end in
  (* Step 3: load knowledge base and find relevant chunks *)
  loadKnowledgeBase w (KNOWLEDGE_FILES w) ;;;
  relevantChunks <- findRelevantChunks w query 3 default_threshold ;;
  if (length relevantChunks =? 0)%nat
  then ret (Send 200 (forwardMessage role))
  else
    let context := contextOf relevantChunks in
    (* Step 4: create system prompt *)
    let systemPrompt := systemPromptOf basePrompt role context in
    (* Step 5: ask the model *)
    content <- await (CallChat systemPrompt query)
                     (chatModel w systemPrompt query) ;;
    let fullAnswer :=
      match content with
      | Some (c :: rest) => c :: rest
      | _ => noContent
      end in
    ret (Send 200 fullAnswer).

(** The [query] of the request body, taken to be absent or a string: an
    absent and an empty query are both falsy.  A body whose [query] is
    another JSON value (a number, a boolean, [null], an array, an object)
    is outside this definition; the test of line 193 answers the falsy
    ones among them ([0], [false], [null]) with the 400 as well.  The
    handler is an [async] function: when it completes with [Throw], its
    promise is rejected and nothing has been sent. *)
Definition ask (w : World) (query : option jsString) : M Response :=
  match query with
  | None | Some [] => ret (SendJsonError 400 (lit "Missing query."))
  | Some query =>
      (* Step 1: validate question *)
      isValid <- validateQuestion w query ;;
      if negb isValid then ret (Send 200 clarification)
      else
        try_catch (askBody w query)
                  (fun err => ret (Send 500 internalFailure))
  end.

(** The chat-model calls among the calls made. *)
Definition isChatCall (c : Call) : bool :=
  match c with
  | CallChat _ _ => true
  | _ => false
  end.

Definition chatCalls (cs : list Call) : nat := length (filter isChatCall cs).

(** The forwarding label in the words of the specification: the role name
    with its underscores replaced by spaces. *)
Definition spacedLabel (role : jsString) : jsString :=
  List.map (fun c => if (c =? underscore)%N then space else c) role.

(** ** What a build pushes *)

(** The chunks the loops of [loadKnowledgeBase] push, as a list: those of
    the documents at hand up to the first embedding that throws, then
    [after], those of the files that follow. *)
Fixpoint pendingDocs (w : World) (path : jsString) (docs : list jsString)
         (after : list Chunk) : list Chunk :=
  match docs with
  | [] => after
  | pageContent :: docs' =>
      match embedQuery w pageContent with
      | Throw _ => []
      | Normal embedding =>
          mkChunk embedding pageContent path :: pendingDocs w path docs' after
      end
  end.

Fixpoint pendingFiles (w : World) (filePaths : list jsString) : list Chunk :=
  match filePaths with
  | [] => []
  | path :: filePaths' =>
      if negb (existsSync w path) then pendingFiles w filePaths'
      else
        match readFileSync w path with
        | Throw _ => []
        | Normal raw =>
            match trim raw with
            | [] => pendingFiles w filePaths'
            | c :: t =>
                match createDocuments w (c :: t) with
                | Throw _ => []
                | Normal docs =>
                    pendingDocs w path docs (pendingFiles w filePaths')
                end
            end
        end
  end.

(** ** Interleaving of [loadKnowledgeBase] calls on the event loop

    Node runs one handler at a time and switches only where a handler
    awaits.  A call of [loadKnowledgeBase] is therefore a sequence of
    uninterrupted segments, each ending at the next [await] (line 154 or
    line 157) or at the return; between two segments of one call, segments
    of other calls may run on the same [vectorStore]. *)

Module EventLoop.

(** Where a call of [loadKnowledgeBase] stands. *)
Inductive Task : Type :=
| Entered (filePaths : list jsString)
    (* called; the guard of line 145 has not run yet *)
| AtSplit (path text : jsString) (filePaths' : list jsString)
    (* suspended in [await splitter.createDocuments([text])] *)
| AtEmbed (path pageContent : jsString) (docs' filePaths' : list jsString)
    (* suspended in [await embeddings.embedQuery(doc.pageContent)] *)
| Returned
| Failed (e : jsError).

(** The outer loop from its head up to the next [await]. *)
Fixpoint enterFiles (w : World) (filePaths : list jsString) : Task :=
  match filePaths with
  | [] => Returned
  | path :: filePaths' =>
      if negb (existsSync w path) then enterFiles w filePaths'
      else
        match readFileSync w path with
        | Throw e => Failed e
        | Normal raw =>
            match trim raw with
            | [] => enterFiles w filePaths'
            | c :: t => AtSplit path (c :: t) filePaths'
            end
        end
  end.

(** The inner loop from its head up to the next [await]. *)
Definition enterDocs (w : World) (path : jsString)
           (docs filePaths' : list jsString) : Task :=
  match docs with
  | [] => enterFiles w filePaths'
  | pageContent :: docs' => AtEmbed path pageContent docs' filePaths'
  end.

(** One segment: the task runs from where it stands to its next [await]. *)
Definition resume (w : World) (t : Task) (store : list Chunk)
  : Task * list Chunk :=
  match t with
  | Entered filePaths =>
      if (0 <? length store)%nat then (Returned, store)
      else (enterFiles w filePaths, store)
  | AtSplit path text filePaths' =>
      match createDocuments w text with
      | Throw e => (Failed e, store)
      | Normal docs => (enterDocs w path docs filePaths', store)
      end
  | AtEmbed path pageContent docs' filePaths' =>
      match embedQuery w pageContent with
      | Throw e => (Failed e, store)
      | Normal embedding =>
          (enterDocs w path docs' filePaths',
           store ++ [mkChunk embedding pageContent path])
      end
  | Returned => (Returned, store)
  | Failed e => (Failed e, store)
  end.

Definition finished (t : Task) : bool :=
  match t with
  | Returned | Failed _ => true
  | _ => false
  end.

(** A call that runs with nothing in between: segment after segment. *)
Fixpoint runAlone (w : World) (segments : nat) (t : Task)
         (store : list Chunk) : Task * list Chunk :=
  match segments with
  | O => (t, store)
  | S n => let '(t', store') := resume w t store in runAlone w n t' store'
  end.

(** Two requests in flight.  The schedule says whose segment runs next:
    [false] the first call, [true] the second. *)
Fixpoint interleave (w : World) (schedule : list bool)
         (t1 t2 : Task) (store : list Chunk) : Task * Task * list Chunk :=
  match schedule with
  | [] => (t1, t2, store)
  | false :: schedule' =>
      let '(t1', store') := resume w t1 store in
      interleave w schedule' t1' t2 store'
  | true :: schedule' =>
      let '(t2', store') := resume w t2 store in
      interleave w schedule' t1 t2' store'
  end.

(** A call passes the guard of line 145 and starts a build when it is
    resumed from [Entered] on an empty store. *)
Fixpoint buildsStarted (w : World) (schedule : list bool)
         (t1 t2 : Task) (store : list Chunk) : nat :=
  match schedule with
  | [] => 0
  | who :: schedule' =>
      let t := if who then t2 else t1 in
      let started :=
        match t with
        | Entered _ => if (0 <? length store)%nat then 0 else 1
        | _ => 0
        end%nat in
      let '(t', store') := resume w t store in
      (started + (if who then buildsStarted w schedule' t1 t' store'
                  else buildsStarted w schedule' t' t2 store'))%nat
  end.

(** How a call ends, as a task. *)
Definition taskOf (r : completion unit) : Task :=
  match r with
  | Normal _ => Returned
  | Throw e => Failed e
  end.

(** The chunks a call has yet to push; for a call still at [Entered], what
    it pushes once past the guard. *)
Definition pending (w : World) (t : Task) : list Chunk :=
  match t with
  | Entered filePaths => pendingFiles w filePaths
  | AtSplit path text filePaths' =>
      match createDocuments w text with
      | Throw _ => []
      | Normal docs => pendingDocs w path docs (pendingFiles w filePaths')
      end
  | AtEmbed path pageContent docs' filePaths' =>
      pendingDocs w path (pageContent :: docs') (pendingFiles w filePaths')
  | Returned | Failed _ => []
  end.

(** The call is past the guard of line 145. *)
Definition pastGuard (t : Task) : bool :=
  match t with
  | Entered _ => false
  | _ => true
  end.

End EventLoop.

(** ** Configuration ([index.js], lines 21-24) *)

Definition comma : codeUnit := 44%N.

(** [s.split(sep)] with a one-unit separator: the pieces between the
    separators, empty ones included; the empty string gives one empty
    piece. *)
Fixpoint split (sep : codeUnit) (s : jsString) : list jsString :=
  match s with
  | [] => [[]]
  | c :: s' =>
      if (c =? sep)%N then [] :: split sep s'
      else
        match split sep s' with
        | piece :: pieces => (c :: piece) :: pieces
        | [] => [[c]]
        end
  end.

(** [Boolean(s)] on a string: every string but the empty one is truthy. *)
Definition truthy (s : jsString) : bool :=
  match s with
  | [] => false
  | _ :: _ => true
  end.

(** [(process.env.KNOWLEDGE_FILES || 'knowledge.txt').split(',')
    .map(s => s.trim()).filter(Boolean)]; the variable is unset ([None]) or
    holds a string. *)
Definition knowledgeFilesFromEnv (env : option jsString) : list jsString :=
  let configured :=
    match env with
    | Some (c :: s) => c :: s
    | _ => lit "knowledge.txt"
    end in
  filter truthy (List.map trim (split comma configured)).

(** The files [loadKnowledgeBase] passes over: those that do not exist and
    those whose text is empty once trimmed (lines 150 and 152). *)
Definition passedOver (w : World) (path : jsString) : bool :=
  negb (existsSync w path)
  || match readFileSync w path with
     | Normal raw => negb (truthy (trim raw))
     | Throw _ => false
     end.

(** ** Vocabulary of the properties *)

(** Binary64 values, read through their specification. *)
Module Binary64.

(** [isNaN x]: [x] is the NaN; [x] is a zero: [+0] or [-0]. *)
Definition isNaN (x : float) : Prop := Prim2SF x = S754_nan.
Definition isZero (x : float) : Prop := exists s, Prim2SF x = S754_zero s.

(** The position of a value on the integer line, in units of the smallest
    positive value, [2 ^ -1074]; the infinities lie beyond every finite
    value, which stays below [2 ^ 2098] units. *)
Definition rank (x : spec_float) : Z :=
  match x with
  | S754_zero _ => 0
  | S754_nan => 0
  | S754_infinity s => cond_Zopp s (2 ^ 2098)
  | S754_finite s m e => cond_Zopp s (Zpos m * 2 ^ (e + 1074))
  end%Z.

(** The same on primitive values. *)
Definition ord (x : float) : Z := rank (Prim2SF x).


(** Where a value lies between two neighbours of the grid: the location of
    a remainder [rho] within a step [W], as the rounding of [SpecFloat]
    records it. *)
Definition locOf (rho W : Z) : location :=
  if (rho =? 0)%Z then loc_Exact else loc_Inexact (2 * rho ?= W)%Z.

Fixpoint iterate {A : Type} (f : A -> A) (n : nat) (x : A) : A :=
  match n with
  | O => x
  | S n' => f (iterate f n' x)
  end.

(** [rec] holds the mantissa of [N] in steps of [W], with the location of
    what is left. *)
Definition located (N W : Z) (rec : shr_record) : Prop :=
  (0 <= shr_m rec)%Z
  /\ (shr_m rec * W <= N < (shr_m rec + 1) * W)%Z
  /\ loc_of_shr_record rec = locOf (N - shr_m rec * W) W.

End Binary64.

(** No score is NaN. *)
Definition noNaN (scored : list ScoredChunk) : Prop :=
  Forall (fun r => score r <> nan) scored.

(** [a] may stand before [b] in a descending ranking. *)
Definition descending (a b : ScoredChunk) : Prop := (score b <=? score a) = true.


(** [v] is 1.0 up to rounding: within [2 ^ -51], two units in the last
    place of 1.0, of it. *)
Definition nearOne (v : float) : Prop :=
  (1 - 0x1p-51 <=? v) = true /\ (v <=? 1 + 0x1p-51) = true.



(** ** Sample collaborators, for running the definitions *)

(** The order that V8, the engine of Node, gives an array of fewer than 64
    elements (its [ArrayTimSortImpl]): the longest run at the start of the
    array is found, and reversed if it is strictly descending
    ([CountAndMakeRun]); every later element is then put in its place
    among those before it, the place being found by bisection
    ([BinaryInsertionSort]).  Positions stand for the elements.  Longer
    arrays, which V8 cuts into runs and merges, are not covered: no rank is
    given. *)
Module V8.
Section Order.
Variable table : list (list float).

(** [order < 0] for [order = Compare(work[i], work[j])]; a NaN answer is
    read as 0. *)
Definition negative (i j : nat) : bool :=
  (nth j (nth i table []) nan <? 0)%float.

(** How far the run goes on after [previous]: a descending run as long as
    [order < 0], another one as long as [order >= 0]. *)
Fixpoint runTail (descending : bool) (previous : nat) (rest : list nat) : nat :=
  match rest with
  | [] => 0
  | current :: rest' =>
      if Bool.eqb (negative current previous) descending
      then S (runTail descending current rest')
      else 0
  end.

Definition countAndMakeRun (work : list nat) : list nat * nat :=
  match work with
  | elementHigh :: elementLow :: rest =>
      let isDescending := negative elementLow elementHigh in
      let runLength := (2 + runTail isDescending elementLow rest)%nat in
      (if isDescending
       then rev (firstn runLength work) ++ skipn runLength work
       else work,
       runLength)
  | _ => (work, length work)
  end.

(** The bisection: [pivot] goes after the elements it is not below. *)
Fixpoint search (fuel : nat) (work : list nat) (pivot left right : nat) : nat :=
  match fuel with
  | O => left
  | S fuel' =>
      if (left <? right)%nat
      then
        let mid := (left + (right - left) / 2)%nat in
        if negative pivot (nth mid work 0%nat)
        then search fuel' work pivot left mid
        else search fuel' work pivot (S mid) right
      else left
  end.

Fixpoint binaryInsertionSort (count start : nat) (work : list nat) : list nat :=
  match count with
  | O => work
  | S count' =>
      let pivot := nth start work 0%nat in
      let left := search (S start) work pivot 0 start in
      binaryInsertionSort
        count' (S start)
        (firstn left work ++ pivot :: firstn (start - left) (skipn left work)
                ++ skipn (S start) work)
  end.

(** The positions in the order in which they come out. *)
Definition sorted : list nat :=
  let n := length table in
  let '(work, runLength) := countAndMakeRun (seq 0 n) in
  binaryInsertionSort (n - runLength) runLength work.

Fixpoint rankOf (position : nat) (out : list nat) : nat :=
  match out with
  | [] => 0
  | p :: out' => if (p =? position)%nat then 0 else S (rankOf position out')
  end.

Definition order : list nat :=
  if (length table <? 64)%nat
  then List.map (fun position => rankOf position sorted) (seq 0 (length table))
  else [].
End Order.
End V8.

Module Sample.

Definition question : jsString := lit "What is your refund policy?".
Definition knowledge : jsString := lit "Our refund window is 30 days.".

(** A world with one knowledge file of one chunk, whose collaborators all
    answer: the validator says [validOut], the classifier [roleOut]. *)
Definition world (validOut roleOut : completion jsString)
           (files : list jsString) : World :=
  {| unicodeLower := fun s => s;
     sortOrder := V8.order;
     KNOWLEDGE_FILES := [lit "knowledge.txt"];
     validationChain := fun _ => validOut;
     roleChain := fun _ => roleOut;
     embedQuery := fun input =>
       if string_eqb input question then Normal [0x1.8p-1; 0x1p-1]
       else Normal [1; 0];
     existsSync := fun path => includes files path;
     readFileSync := fun _ => Normal (knowledge ++ nl);
     createDocuments := fun input => Normal [input];
     chatModel := fun _ _ => Normal (Some (lit "Within 30 days.")) |}.

Definition fault : jsError := Error (lit "fetch failed").

Definition start : State := mkState [] [].

Definition answering : World :=
  world (Normal (lit "valid")) (Normal (lit "sales_agent"))
        [lit "knowledge.txt"].

(** The same, with no knowledge file on disk. *)
Definition unfurnished : World :=
  world (Normal (lit "valid")) (Normal (lit "sales_agent")) [].

(** Stores for the examples: one chunk along the query and one against it;
    one chunk with a zero embedding in front of one along the query. *)
Definition storeWithOpposite : State :=
  mkState [ mkChunk [1; 0] knowledge (lit "knowledge.txt");
            mkChunk [-1; 0] (lit "Shipping takes a week.") (lit "knowledge.txt") ]
          [].

Definition storeWithZero : State :=
  mkState [ mkChunk [0; 0] (lit "Shipping takes a week.") (lit "knowledge.txt");
            mkChunk [0x1.8p-1; 0x1p-1] knowledge (lit "knowledge.txt") ]
          [].

(** A world whose splitter makes two documents of the knowledge file and
    whose embedding model fails on the second. *)
Definition flaky : World :=
  {| unicodeLower := fun s => s;
     sortOrder := V8.order;
     KNOWLEDGE_FILES := [lit "knowledge.txt"];
     validationChain := fun _ => Normal (lit "valid");
     roleChain := fun _ => Normal (lit "sales_agent");
     embedQuery := fun input =>
       if string_eqb input (lit "is 30 days.") then Throw fault
       else Normal [1; 0];
     existsSync := fun _ => true;
     readFileSync := fun _ => Normal knowledge;
     createDocuments := fun _ =>
       Normal [lit "Our refund window"; lit "is 30 days."];
     chatModel := fun _ _ => Normal None |}.

End Sample.

(** ** Properties *)

(** *** Strings *)

Lemma string_eqb_eq (s t : jsString) : string_eqb s t = true <-> s = t.
Proof.
  unfold string_eqb. destruct (list_eq_dec N.eq_dec s t); split; congruence.
Qed.

Lemma string_eqb_refl (s : jsString) : string_eqb s s = true.
Proof. now apply string_eqb_eq. Qed.

Lemma includes_In (arr : list jsString) (x : jsString) :
  includes arr x = true <-> In x arr.
Proof.
  unfold includes. rewrite existsb_exists. split.
  - intros (y & Hy & E). apply string_eqb_eq in E. now subst.
  - intros H. exists x. split; [assumption | apply string_eqb_refl].
Qed.

(** [trimStart] removes a prefix of white space, and all of it. *)
Lemma trimStart_spec (s : jsString) :
  exists pre, s = pre ++ trimStart s
              /\ forallb isWhiteSpace pre = true
              /\ match trimStart s with
                 | c :: _ => isWhiteSpace c = false
                 | [] => True
                 end.
Proof.
  induction s as [|c s IH]; simpl.
  - exists []. auto.
  - destruct (isWhiteSpace c) eqn:Hc.
    + destruct IH as (pre & E & W & H). exists (c :: pre). simpl.
      rewrite Hc, W. repeat split; auto. now f_equal.
    + exists []. simpl. rewrite Hc. auto.
Qed.

(** [trim] cuts a white-space prefix and a white-space suffix, and what is
    left neither starts nor ends with white space. *)
Lemma trim_spec (s : jsString) :
  exists pre post,
    s = pre ++ trim s ++ post
    /\ forallb isWhiteSpace pre = true
    /\ forallb isWhiteSpace post = true
    /\ match trim s with
       | c :: _ => isWhiteSpace c = false
       | [] => True
       end
    /\ match rev (trim s) with
       | c :: _ => isWhiteSpace c = false
       | [] => True
       end.
Proof.
  unfold trim, trimEnd.
  destruct (trimStart_spec s) as (pre & E & Wpre & Hhead).
  destruct (trimStart_spec (rev (trimStart s))) as (tl & E' & Wtl & Hlast).
  exists pre, (rev tl). split; [|split; [|split; [|split]]].
  - rewrite E at 1. f_equal.
    rewrite <- rev_app_distr, <- E'. now rewrite rev_involutive.
  - assumption.
  - rewrite forallb_forall in *. intros x Hx. apply Wtl. now apply in_rev.
  - assert (Hs : trimStart s = rev (trimStart (rev (trimStart s))) ++ rev tl).
    { rewrite <- rev_app_distr, <- E'. now rewrite rev_involutive. }
    destruct (rev (trimStart (rev (trimStart s)))) as [|c r] eqn:R; [exact I|].
    rewrite Hs in Hhead. exact Hhead.
  - rewrite rev_involutive. exact Hlast.
Qed.

(** *** C7: vectors of unequal length *)

(** Every store record whose embedding has another length than the query
    vector makes the scoring of the store throw. *)
Lemma scoreAll_mismatch (q : list float) (store : list Chunk) :
  (exists c, In c store /\ length (embedding c) <> length q) ->
  scoreAll q store = Throw (Error (lit "Vectors must have the same length")).
Proof.
  induction store as [|c store IH]; intros (c0 & Hin & Hlen).
  - destruct Hin.
  - simpl. unfold cosineSimilarity.
    destruct (length q =? length (embedding c))%nat eqn:E; simpl.
    + rewrite IH; [reflexivity|].
      destruct Hin as [-> | Hin].
      * apply Nat.eqb_eq in E. congruence.
      * now exists c0.
    + reflexivity.
Qed.

(** C7.  For every pair of vectors of unequal length [cosineSimilarity]
    throws (it returns no value), and a store holding an embedding whose
    length differs from the query embedding's makes [findRelevantChunks]
    throw that same error instead of returning scores. *)
Theorem cosineSimilarity_unequal_length_throws :
  (forall vecA vecB : list float,
      length vecA <> length vecB ->
      cosineSimilarity vecA vecB
      = Throw (Error (lit "Vectors must have the same length")))
  /\ (forall (w : World) (question : jsString) (topK : Z) (threshold : float)
             (s : State) (q : list float),
         embedQuery w question = Normal q ->
         (exists c, In c (vectorStore s) /\ length (embedding c) <> length q) ->
         fst (findRelevantChunks w question topK threshold s)
         = Throw (Error (lit "Vectors must have the same length"))).
Proof.
  split.
  - intros vecA vecB H. unfold cosineSimilarity.
    apply Nat.eqb_neq in H. now rewrite H.
  - intros w question topK threshold s q Hq Hbad.
    unfold findRelevantChunks, bind, await, getStore, liftC. rewrite Hq. simpl.
    now rewrite (scoreAll_mismatch q (vectorStore s) Hbad).
Qed.

Lemma cosineSimilarity_unequal_length_throws_witness :
  cosineSimilarity [1; 2; 3] [1; 2]
  = Throw (Error (lit "Vectors must have the same length"))
  /\ fst (findRelevantChunks Sample.answering Sample.question 3 default_threshold
            (mkState [mkChunk [1; 0; 0] Sample.knowledge (lit "knowledge.txt")] []))
     = Throw (Error (lit "Vectors must have the same length")).
Proof.
  split.
  - apply (proj1 cosineSimilarity_unequal_length_throws). simpl. lia.
  - apply (proj2 cosineSimilarity_unequal_length_throws) with (q := [0x1.8p-1; 0x1p-1]).
    + reflexivity.
    + eexists. split; [left; reflexivity | simpl; lia].
Defined.

(** *** C3: the question validator *)

(** What the validator does with the raw text of the model. *)
Lemma validateQuestion_run (w : World) (query : jsString) (s : State) :
  validateQuestion w query s
  = (match validationChain w query with
     | Normal raw =>
         Normal (string_eqb (toLowerCase (unicodeLower w) (trim raw)) (lit "valid"))
     | Throw e => Throw e
     end,
     mkState (vectorStore s) (calls s ++ [CallValidation query])).
Proof.
  unfold validateQuestion, bind, await, ret.
  destruct (validationChain w query); reflexivity.
Qed.

(** C3.  Whatever text the validation model returns, [validateQuestion]
    completes normally, with [true] exactly when the text, trimmed and
    lower-cased, is the string "valid", and with [false] for every other
    text.  A text that validates is white space, then a spelling of "valid"
    in some letter case, then white space.  On a text that is ASCII once
    trimmed the result is the comparison of its letters, [A-Z] turned into
    [a-z], with "valid", in every world.  So "  VaLiD " followed by a line
    break and "VALID" validate, and "needs_more_context", "valid.",
    "Answer: valid", "val id" and the empty text do not. *)
Theorem validateQuestion_fail_closed :
  (forall (w : World) (query raw : jsString) (s : State),
      validationChain w query = Normal raw ->
      exists isValid : bool,
        fst (validateQuestion w query s) = Normal isValid
        /\ (isValid = true
            <-> toLowerCase (unicodeLower w) (trim raw) = lit "valid")
        /\ (isValid = false
            <-> toLowerCase (unicodeLower w) (trim raw) <> lit "valid")
        /\ (isValid = true ->
            exists pre core post,
              raw = pre ++ core ++ post
              /\ forallb isWhiteSpace pre = true
              /\ forallb isWhiteSpace post = true
              /\ toLowerCase (unicodeLower w) core = lit "valid"))
  /\ (forall (w : World) (query raw : jsString) (s : State),
         validationChain w query = Normal raw ->
         forallb isAscii (trim raw) = true ->
         fst (validateQuestion w query s)
         = Normal (string_eqb (List.map asciiLower (trim raw)) (lit "valid")))
  /\ (forall (w : World) (query raw : jsString) (s : State),
         validationChain w query = Normal raw ->
         (In raw [lit "  VaLiD " ++ nl; lit "VALID"; lit "valid"] ->
          fst (validateQuestion w query s) = Normal true)
         /\ (In raw [lit "needs_more_context"; lit "valid."; lit "Answer: valid";
                     lit "val id"; []] ->
             fst (validateQuestion w query s) = Normal false)).
Proof.
  assert (Hascii : forall (w : World) (query raw : jsString) (s : State),
             validationChain w query = Normal raw ->
             forallb isAscii (trim raw) = true ->
             fst (validateQuestion w query s)
             = Normal (string_eqb (List.map asciiLower (trim raw)) (lit "valid"))).
  { intros w query raw s Hraw Ha.
    rewrite validateQuestion_run, Hraw. unfold toLowerCase. now rewrite Ha. }
  split; [|split; [exact Hascii|]].
  - intros w query raw s Hraw.
    rewrite validateQuestion_run, Hraw. simpl.
    eexists. split; [reflexivity|]. split; [|split].
    + apply string_eqb_eq.
    + rewrite <- string_eqb_eq.
      destruct (string_eqb _ _); split; congruence.
    + intros H. apply string_eqb_eq in H.
      destruct (trim_spec raw) as (pre & post & E & Wpre & Wpost & _).
      exists pre, (trim raw), post. auto.
  - intros w query raw s Hraw. split; intros Hin.
    + destruct Hin as [<- | [<- | [<- | []]]];
        now rewrite (Hascii w query _ s Hraw).
    + destruct Hin as [<- | [<- | [<- | [<- | [<- | []]]]]];
        now rewrite (Hascii w query _ s Hraw).
Qed.

(** The validator's answer on a padded, mixed-case "valid" and on the
    other label of the prompt. *)
Lemma validateQuestion_fail_closed_witness :
  fst (validateQuestion
         (Sample.world (Normal (lit "  VaLiD " ++ nl)) (Normal []) [])
         Sample.question Sample.start)
  = Normal true
  /\ fst (validateQuestion
            (Sample.world (Normal (lit "needs_more_context")) (Normal []) [])
            Sample.question Sample.start)
     = Normal false.
Proof.
  split.
  - apply (proj1 (proj2 (proj2 validateQuestion_fail_closed)
                        (Sample.world (Normal (lit "  VaLiD " ++ nl))
                                      (Normal []) [])
                        Sample.question
                        (lit "  VaLiD " ++ nl) Sample.start eq_refl)).
    left. reflexivity.
  - apply (proj2 (proj2 (proj2 validateQuestion_fail_closed)
                        (Sample.world (Normal (lit "needs_more_context"))
                                      (Normal []) [])
                        Sample.question
                        (lit "needs_more_context") Sample.start eq_refl)).
    left. reflexivity.
Defined.

(** Outputs on both sides of the comparison. *)
Example validateQuestion_outputs :
  let run raw :=
    fst (validateQuestion (Sample.world (Normal raw) (Normal []) [])
                          Sample.question Sample.start) in
  run (lit "valid") = Normal true
  /\ run (lit "  VaLiD " ++ nl) = Normal true
  /\ run (lit "needs_more_context") = Normal false
  /\ run (lit "valid.") = Normal false
  /\ run (lit "Answer: valid") = Normal false
  /\ run (lit "val id") = Normal false
  /\ run [] = Normal false.
Proof. vm_compute. repeat split. Qed.

(** *** C4: the role classifier *)

(** The labels the classifier allows are the keys of [agentPrompts]. *)
Lemma Object_keys_agentPrompts : Object_keys agentPrompts = roleLabels.
Proof. reflexivity. Qed.

Lemma classifyRole_run (w : World) (query : jsString) (s : State) :
  classifyRole w query s
  = (match roleChain w query with
     | Normal raw =>
         let label := toLowerCase (unicodeLower w) (trim raw) in
         Normal (if includes roleLabels label then label else lit "general_info")
     | Throw e => Throw e
     end,
     mkState (vectorStore s) (calls s ++ [CallRole query])).
Proof.
  unfold classifyRole, bind, await, ret.
  destruct (roleChain w query); reflexivity.
Qed.

(** Whatever [classifyRole] returns normally is one of the five labels. *)
Lemma classifyRole_in_roleLabels (w : World) (query : jsString) (s s' : State)
      (role : jsString) :
  classifyRole w query s = (Normal role, s') -> In role roleLabels.
Proof.
  rewrite classifyRole_run. destruct (roleChain w query) as [raw|e]; [|discriminate].
  cbv zeta. set (label := toLowerCase (unicodeLower w) (trim raw)).
  destruct (includes roleLabels label) eqn:E; intros H; injection H as <- _.
  - now apply includes_In.
  - vm_compute. tauto.
Qed.

(** C4.  Whatever text the classification model returns, [classifyRole]
    completes normally (it raises no error): with the trimmed, lower-cased
    text when that is one of the five role labels, with [general_info]
    otherwise.  The text " Technical_Expert \n" gives [technical_expert]. *)
Theorem classifyRole_normalizes_or_defaults :
  (forall (w : World) (query raw : jsString) (s : State),
      roleChain w query = Normal raw ->
      let label := toLowerCase (unicodeLower w) (trim raw) in
      exists role,
        fst (classifyRole w query s) = Normal role
        /\ In role roleLabels
        /\ (In label roleLabels -> role = label)
        /\ (~ In label roleLabels -> role = lit "general_info"))
  /\ (forall (w : World) (query : jsString) (s : State),
         roleChain w query = Normal (lit " Technical_Expert " ++ nl) ->
         fst (classifyRole w query s) = Normal (lit "technical_expert")).
Proof.
  split.
  - intros w query raw s Hraw label.
    rewrite classifyRole_run, Hraw. cbv zeta. fold label. cbn [fst].
    destruct (includes roleLabels label) eqn:E.
    + exists label. apply includes_In in E.
      split; [reflexivity|]. split; [exact E|]. split; [reflexivity|].
      intros H. contradiction.
    + exists (lit "general_info").
      split; [reflexivity|]. split; [vm_compute; tauto|]. split; [|reflexivity].
      intros H. apply includes_In in H. congruence.
  - intros w query s Hraw. rewrite classifyRole_run, Hraw. reflexivity.
Qed.

Lemma classifyRole_normalizes_or_defaults_witness :
  fst (classifyRole
         (Sample.world (Normal []) (Normal (lit " Technical_Expert " ++ nl)) [])
         Sample.question Sample.start)
  = Normal (lit "technical_expert").
Proof.
  apply (proj2 classifyRole_normalizes_or_defaults). reflexivity.
Defined.

Example classifyRole_outputs :
  let run raw :=
    fst (classifyRole (Sample.world (Normal []) (Normal raw) [])
                      Sample.question Sample.start) in
  run (lit "sales_agent") = Normal (lit "sales_agent")
  /\ run (lit "MARKETING_AGENT  ") = Normal (lit "marketing_agent")
  /\ run (lit "Role: sales_agent") = Normal (lit "general_info")
  /\ run (lit "billing") = Normal (lit "general_info")
  /\ run [] = Normal (lit "general_info").
Proof. vm_compute. repeat split. Qed.

(** *** Calls made by the knowledge-base operations *)

Lemma chatCalls_app (cs : list Call) (c : Call) :
  chatCalls (cs ++ [c]) = (chatCalls cs + (if isChatCall c then 1 else 0))%nat.
Proof.
  unfold chatCalls. rewrite filter_app, length_app. simpl.
  destruct (isChatCall c); reflexivity.
Qed.

Lemma embedDocs_chatCalls (w : World) (path : jsString) (docs : list jsString) :
  forall s, chatCalls (calls (snd (embedDocs w path docs s))) = chatCalls (calls s).
Proof.
  induction docs as [|d docs IH]; intros s; [reflexivity|].
  simpl. unfold bind, await, push.
  destruct (embedQuery w d) as [v|e]; simpl.
  - rewrite IH. simpl. rewrite chatCalls_app. simpl. lia.
  - rewrite chatCalls_app. simpl. lia.
Qed.

Lemma loadFiles_chatCalls (w : World) (filePaths : list jsString) :
  forall s, chatCalls (calls (snd (loadFiles w filePaths s))) = chatCalls (calls s).
Proof.
  induction filePaths as [|path rest IH]; intros s; [reflexivity|].
  simpl. destruct (existsSync w path); simpl; [|apply IH].
  unfold bind at 1. unfold liftC.
  destruct (readFileSync w path) as [raw|e]; [|reflexivity].
  destruct (trim raw) as [|c t]; [apply IH|].
  unfold bind at 1. unfold await.
  destruct (createDocuments w (c :: t)) as [docs|e]; simpl.
  - unfold bind.
    match goal with
    | |- context [embedDocs w path docs ?s0] =>
        pose proof (embedDocs_chatCalls w path docs s0) as H;
        destruct (embedDocs w path docs s0) as [[u|e] s']
    end; simpl in *; rewrite ?IH, H, chatCalls_app; simpl; lia.
  - rewrite chatCalls_app. simpl. lia.
Qed.

Lemma loadKnowledgeBase_chatCalls (w : World) (filePaths : list jsString) (s : State) :
  chatCalls (calls (snd (loadKnowledgeBase w filePaths s))) = chatCalls (calls s).
Proof.
  unfold loadKnowledgeBase, bind, getStore, ret.
  destruct (0 <? length (vectorStore s))%nat; [reflexivity|].
  pose proof (loadFiles_chatCalls w filePaths s) as H.
  destruct (loadFiles w filePaths s) as [[u|e] s']; exact H.
Qed.

Lemma findRelevantChunks_run (w : World) (question : jsString) (topK : Z)
      (threshold : float) (s : State) :
  findRelevantChunks w question topK threshold s
  = (match embedQuery w question with
     | Throw e => Throw e
     | Normal q =>
         match scoreAll q (vectorStore s) with
         | Throw e => Throw e
         | Normal scored =>
             let topResults := topResultsOf w topK scored in
             Normal (if topBelow topResults threshold then [] else topResults)
         end
     end,
     mkState (vectorStore s) (calls s ++ [CallEmbed question])).
Proof.
  unfold findRelevantChunks, bind, await, getStore, liftC, ret.
  destruct (embedQuery w question) as [q|e]; simpl; [|reflexivity].
  destruct (scoreAll q (vectorStore s)) as [scored|e]; simpl; [|reflexivity].
  destruct (topBelow _ _); reflexivity.
Qed.

(** *** C5: the forwarding message *)

(** On the five role labels, replacing the first underscore replaces them
    all. *)
Lemma replaceFirst_roleLabels (role : jsString) :
  In role roleLabels -> replaceFirst underscore space role = spacedLabel role.
Proof.
  intros H. repeat (destruct H as [<- | H]; [reflexivity|]). destruct H.
Qed.

(** C5.  For a query that passes validation, whatever role the classifier
    yields (it is one of the five), when retrieval returns the empty result
    the handler answers 200 with exactly "will forward this to our " followed
    by the role name with underscores replaced by spaces, and the run makes
    no call to the chat model. *)
Theorem ask_forwards_on_empty_retrieval
        (w : World) (query role : jsString) (store : list Chunk)
        (s s1 s2 s3 s4 : State)
        (Hquery : query <> [])
        (Hvalid : validateQuestion w query s = (Normal true, s1))
        (Hrole : classifyRole w query s1 = (Normal role, s2))
        (Hload : loadKnowledgeBase w (KNOWLEDGE_FILES w) s2 = (Normal store, s3))
        (Hfind : findRelevantChunks w query 3 default_threshold s3 = (Normal [], s4)) :
  ask w (Some query) s
  = (Normal (Send 200 (lit "will forward this to our " ++ spacedLabel role)), s4)
  /\ In role roleLabels
  /\ chatCalls (calls s4) = chatCalls (calls s).
Proof.
  assert (Hin : In role roleLabels) by exact (classifyRole_in_roleLabels _ _ _ Hrole).
  split; [|split; [exact Hin|]].
  - destruct query as [|c query]; [congruence|].
    unfold ask, askBody, try_catch, bind.
    rewrite Hvalid. cbn [negb]. rewrite Hrole, Hload, Hfind. cbn [length Nat.eqb].
    unfold ret, forwardMessage. now rewrite replaceFirst_roleLabels.
  - replace s4 with (snd (findRelevantChunks w query 3 default_threshold s3))
      by now rewrite Hfind.
    rewrite findRelevantChunks_run. simpl. rewrite chatCalls_app. simpl.
    replace s3 with (snd (loadKnowledgeBase w (KNOWLEDGE_FILES w) s2))
      by now rewrite Hload.
    rewrite loadKnowledgeBase_chatCalls.
    replace s2 with (snd (classifyRole w query s1)) by now rewrite Hrole.
    rewrite classifyRole_run. simpl. rewrite chatCalls_app. simpl.
    replace s1 with (snd (validateQuestion w query s)) by now rewrite Hvalid.
    rewrite validateQuestion_run. simpl. rewrite chatCalls_app. simpl. lia.
Qed.

(** The example of the specification: a valid query, classifier output
    [sales_agent], nothing to retrieve. *)
Lemma ask_forwards_on_empty_retrieval_witness :
  ask Sample.unfurnished (Some Sample.question) Sample.start
  = (Normal (Send 200 (lit "will forward this to our sales agent")),
     mkState [] [CallValidation Sample.question; CallRole Sample.question;
                 CallEmbed Sample.question])
  /\ In (lit "sales_agent") roleLabels
  /\ chatCalls [CallValidation Sample.question; CallRole Sample.question;
                CallEmbed Sample.question]
     = chatCalls [].
Proof.
  refine (@ask_forwards_on_empty_retrieval
            Sample.unfurnished Sample.question (lit "sales_agent") []
            Sample.start
            (mkState [] [CallValidation Sample.question])
            (mkState [] [CallValidation Sample.question; CallRole Sample.question])
            (mkState [] [CallValidation Sample.question; CallRole Sample.question])
            (mkState [] [CallValidation Sample.question; CallRole Sample.question;
                         CallEmbed Sample.question])
            _ _ _ _ _).
  - discriminate.
  - reflexivity.
  - reflexivity.
  - reflexivity.
  - vm_compute. reflexivity.
Defined.

(** *** C2: faults of the collaborators *)

(** A fault inside the [try] block reaches the [catch] handler: the reply is
    the generic 500. *)
Lemma ask_fault_inside_try (w : World) (query : jsString) (s s1 s2 : State)
      (e : jsError) :
  query <> [] ->
  validateQuestion w query s = (Normal true, s1) ->
  askBody w query s1 = (Throw e, s2) ->
  ask w (Some query) s = (Normal (Send 500 internalFailure), s2).
Proof.
  intros Hq Hvalid Hbody. destruct query as [|c query]; [congruence|].
  unfold ask, try_catch. unfold bind at 1. rewrite Hvalid. cbn [negb].
  now rewrite Hbody.
Qed.

(** The classification, embedding and chat stages all sit inside the [try]
    block. *)
Lemma askBody_classification_fault (w : World) (query : jsString) (s : State)
      (e : jsError) :
  roleChain w query = Throw e -> fst (askBody w query s) = Throw e.
Proof.
  intros H. unfold askBody. unfold bind at 1.
  rewrite classifyRole_run, H. reflexivity.
Qed.

Lemma askBody_embedding_fault (w : World) (query role : jsString)
      (s s1 s2 : State) (store : list Chunk) (e : jsError) :
  classifyRole w query s = (Normal role, s1) ->
  loadKnowledgeBase w (KNOWLEDGE_FILES w) s1 = (Normal store, s2) ->
  embedQuery w query = Throw e ->
  fst (askBody w query s) = Throw e.
Proof.
  intros Hrole Hload He. unfold askBody, bind.
  rewrite Hrole, Hload, findRelevantChunks_run, He. reflexivity.
Qed.

Lemma askBody_chat_fault (w : World) (query role : jsString)
      (s s1 s2 s3 : State) (store : list Chunk) (r : ScoredChunk)
      (found : list ScoredChunk) (e : jsError) :
  classifyRole w query s = (Normal role, s1) ->
  loadKnowledgeBase w (KNOWLEDGE_FILES w) s1 = (Normal store, s2) ->
  findRelevantChunks w query 3 default_threshold s2 = (Normal (r :: found), s3) ->
  (forall systemPrompt, chatModel w systemPrompt query = Throw e) ->
  fst (askBody w query s) = Throw e.
Proof.
  intros Hrole Hload Hfind He. unfold askBody, bind.
  rewrite Hrole, Hload, Hfind. cbn [length Nat.eqb]. unfold await.
  now rewrite He.
Qed.

(** The validation stage sits before the [try] block: its fault is the
    handler's own, and no reply is sent. *)
Lemma ask_validation_fault (w : World) (query : jsString) (s : State)
      (e : jsError) :
  query <> [] ->
  validationChain w query = Throw e ->
  ask w (Some query) s
  = (Throw e, mkState (vectorStore s) (calls s ++ [CallValidation query])).
Proof.
  intros Hq H. destruct query as [|c query]; [congruence|].
  unfold ask. unfold bind at 1. rewrite validateQuestion_run, H. reflexivity.
Qed.

(** Every run of the handler ends in one of: the 400 for a missing query,
    the clarification request, a forwarding message, an answer, the generic
    500, or -- only when the validation call throws -- a rejected promise
    with no reply. *)
Lemma ask_outcomes (w : World) (query : option jsString) (s : State) :
  match fst (ask w query s) with
  | Normal (SendJsonError st msg) =>
      st = 400%Z /\ msg = lit "Missing query."
      /\ (query = None \/ query = Some [])
  | Normal (Send st body) =>
      (st = 200%Z /\ body = clarification)
      \/ (st = 200%Z /\ exists role, In role roleLabels /\ body = forwardMessage role)
      \/ (st = 200%Z /\ exists systemPrompt q,
             query = Some q
             /\ (body = noContent
                 \/ chatModel w systemPrompt q = Normal (Some body)))
      \/ (st = 500%Z /\ body = internalFailure)
  | Throw e => exists q, query = Some q /\ validationChain w q = Throw e
  end.
Proof.
  destruct query as [[|c query]|]; [simpl; auto | | simpl; auto].
  unfold ask. unfold bind at 1. rewrite validateQuestion_run.
  destruct (validationChain w (c :: query)) as [raw|e] eqn:Hv;
    [|simpl; eexists; split; [reflexivity | exact Hv]].
  destruct (string_eqb _ _); cbn [negb]; [|simpl; auto].
  unfold try_catch.
  match goal with |- context [askBody w (c :: query) ?s0] => generalize s0 end.
  intros s1. unfold askBody, bind.
  destruct (classifyRole w (c :: query) s1) as [[role|e] s2] eqn:Hrole;
    [|simpl; auto 6].
  apply classifyRole_in_roleLabels in Hrole.
  destruct (loadKnowledgeBase _ _ s2) as [[store|e] s3]; [|simpl; auto 6].
  destruct (findRelevantChunks _ _ _ _ s3) as [[[|r found]|e] s4];
    cbn [length Nat.eqb]; [| | simpl; auto 6].
  - cbn [ret fst]. right; left. split; [reflexivity|]. now exists role.
  - unfold await.
    match goal with
    | |- context [chatModel w ?sp (c :: query)] =>
        destruct (chatModel w sp (c :: query)) as [[[|c0 body]|]|e] eqn:Hchat;
        cbn [ret fst];
        [ right; right; left; split; [reflexivity|];
          exists sp, (c :: query); auto
        | right; right; left; split; [reflexivity|];
          exists sp, (c :: query); auto
        | right; right; left; split; [reflexivity|];
          exists sp, (c :: query); auto
        | auto 6 ]
    end.
Qed.

(** C2, checked on the code: a fault of the validation call is not turned
    into the generic 500.  For every non-empty query whose validation call
    throws, the handler completes with that very exception and sends
    nothing, while the faults of the later stages (lemmas
    [askBody_classification_fault], [askBody_embedding_fault],
    [askBody_chat_fault] with [ask_fault_inside_try]) do get the 500. *)
Theorem ask_validation_fault_escapes
        (w : World) (query : jsString) (s : State) (e : jsError)
        (Hquery : query <> [])
        (Hfault : validationChain w query = Throw e) :
  fst (ask w (Some query) s) = Throw e
  /\ forall st body, fst (ask w (Some query) s) <> Normal (Send st body).
Proof.
  rewrite (ask_validation_fault _ s Hquery Hfault). simpl.
  split; [reflexivity | discriminate].
Qed.

Lemma ask_validation_fault_escapes_witness :
  fst (ask (Sample.world (Throw Sample.fault) (Normal (lit "sales_agent")) [])
           (Some Sample.question) Sample.start)
  = Throw Sample.fault
  /\ forall st body,
      fst (ask (Sample.world (Throw Sample.fault) (Normal (lit "sales_agent")) [])
               (Some Sample.question) Sample.start)
      <> Normal (Send st body).
Proof.
  apply (@ask_validation_fault_escapes
           (Sample.world (Throw Sample.fault) (Normal (lit "sales_agent")) [])
           Sample.question Sample.start Sample.fault).
  - discriminate.
  - reflexivity.
Defined.

(** The sibling stage, for contrast: the same fault in the classification
    call is answered with the generic 500. *)
Example ask_classification_fault_is_500 :
  fst (ask (Sample.world (Normal (lit "valid")) (Throw Sample.fault) [])
           (Some Sample.question) Sample.start)
  = Normal (Send 500 internalFailure).
Proof. reflexivity. Qed.

(** The other endings, run on the sample collaborators: a missing query, a
    query the validator sends back, and a query answered from the one chunk
    of the knowledge file. *)
Example ask_missing_query :
  ask Sample.answering None Sample.start
  = (Normal (SendJsonError 400 (lit "Missing query.")), Sample.start)
  /\ ask Sample.answering (Some []) Sample.start
     = (Normal (SendJsonError 400 (lit "Missing query.")), Sample.start).
Proof. split; reflexivity. Qed.

Example ask_needs_more_context :
  ask (Sample.world (Normal (lit "needs_more_context"))
                    (Normal (lit "customer_support")) [lit "knowledge.txt"])
      (Some (lit "My order hasn't arrived.")) Sample.start
  = (Normal (Send 200 (lit "Could you provide more details about your question?")),
     mkState [] [CallValidation (lit "My order hasn't arrived.")]).
Proof. reflexivity. Qed.

Example ask_answers_from_context :
  fst (ask Sample.answering (Some Sample.question) Sample.start)
  = Normal (Send 200 (lit "Within 30 days."))
  /\ vectorStore (snd (ask Sample.answering (Some Sample.question) Sample.start))
     = [mkChunk [1; 0] Sample.knowledge (lit "knowledge.txt")]
  /\ chatCalls (calls (snd (ask Sample.answering (Some Sample.question) Sample.start)))
     = 1%nat.
Proof. vm_compute. repeat split. Qed.

(** *** C6: building the index twice *)

(** What the loops of a build push depends on the world only: they never
    read the store, and the record of calls plays no part. *)
Lemma embedDocs_pushes (w : World) (path : jsString) (docs : list jsString) :
  forall (s : State) (after : list Chunk),
    vectorStore (snd (embedDocs w path docs s))
    ++ match fst (embedDocs w path docs s) with
       | Normal _ => after
       | Throw _ => []
       end
    = vectorStore s ++ pendingDocs w path docs after.
Proof.
  induction docs as [|d docs IH]; intros s after; [reflexivity|].
  simpl. unfold bind, await, push.
  destruct (embedQuery w d) as [v|e]; simpl; [|reflexivity].
  rewrite IH. simpl. now rewrite <- app_assoc.
Qed.

Lemma loadFiles_pushes (w : World) (filePaths : list jsString) :
  forall s : State,
    vectorStore (snd (loadFiles w filePaths s))
    = vectorStore s ++ pendingFiles w filePaths.
Proof.
  induction filePaths as [|path rest IH]; intros s; simpl;
    [now rewrite app_nil_r|].
  destruct (existsSync w path); simpl; [|apply IH].
  unfold bind, liftC, await.
  destruct (readFileSync w path) as [raw|e]; [|simpl; now rewrite app_nil_r].
  destruct (trim raw) as [|c t]; [apply IH|].
  destruct (createDocuments w (c :: t)) as [docs|e];
    [|simpl; now rewrite app_nil_r].
  match goal with
  | |- context [embedDocs w path docs ?s0] =>
      pose proof (embedDocs_pushes w path docs s0 (pendingFiles w rest)) as H;
      destruct (embedDocs w path docs s0) as [[u|e] s']
  end; simpl in H |- *.
  - rewrite IH. exact H.
  - rewrite app_nil_r in H. exact H.
Qed.

Lemma loadKnowledgeBase_builds (w : World) (filePaths : list jsString)
      (cs : list Call) :
  vectorStore (snd (loadKnowledgeBase w filePaths (mkState [] cs)))
  = pendingFiles w filePaths.
Proof.
  unfold loadKnowledgeBase, bind, getStore. simpl.
  pose proof (loadFiles_pushes w filePaths (mkState [] cs)) as H.
  destruct (loadFiles w filePaths (mkState [] cs)) as [[u|e] s']; exact H.
Qed.

(** On a non-empty store a build does nothing. *)
Lemma loadKnowledgeBase_ready (w : World) (filePaths : list jsString) (s : State) :
  vectorStore s <> [] ->
  loadKnowledgeBase w filePaths s = (Normal (vectorStore s), s).
Proof.
  intros H. unfold loadKnowledgeBase, bind, getStore.
  destruct (vectorStore s) as [|c store]; [congruence | reflexivity].
Qed.

(** On an empty store a build leaves exactly what its loops push. *)
Lemma loadKnowledgeBase_empty (w : World) (filePaths : list jsString) (s : State) :
  vectorStore s = [] ->
  vectorStore (snd (loadKnowledgeBase w filePaths s)) = pendingFiles w filePaths.
Proof.
  intros Hs. destruct s as [store cs]. simpl in Hs. subst store.
  apply loadKnowledgeBase_builds.
Qed.

(** C6.  In every world (file system, splitter, embedding model) and from
    every state, a second build right after a first leaves the store the
    first one left, so the chunk count is that of a single build; and a
    build on a non-empty store returns the store and changes nothing. *)
Theorem loadKnowledgeBase_idempotent :
  (forall (w : World) (filePaths : list jsString) (s : State),
      let once := snd (loadKnowledgeBase w filePaths s) in
      let twice := snd (loadKnowledgeBase w filePaths once) in
      vectorStore twice = vectorStore once
      /\ length (vectorStore twice) = length (vectorStore once))
  /\ (forall (w : World) (filePaths : list jsString) (c : Chunk)
             (store : list Chunk) (cs : list Call),
         loadKnowledgeBase w filePaths (mkState (c :: store) cs)
         = (Normal (c :: store), mkState (c :: store) cs)).
Proof.
  split.
  - intros w filePaths s once twice.
    assert (H : vectorStore twice = vectorStore once); [|now rewrite H].
    unfold twice.
    destruct (vectorStore once) as [|c store] eqn:Honce.
    + rewrite (loadKnowledgeBase_empty w filePaths once Honce).
      destruct (vectorStore s) as [|c0 store0] eqn:Hs.
      * rewrite <- (loadKnowledgeBase_empty w filePaths s Hs). exact Honce.
      * unfold once in Honce. rewrite loadKnowledgeBase_ready in Honce by congruence.
        simpl in Honce. congruence.
    + rewrite loadKnowledgeBase_ready by congruence. exact Honce.
  - intros. now apply loadKnowledgeBase_ready.
Qed.

(** One file of one chunk: one chunk after the first build, one after the
    second. *)
Example loadKnowledgeBase_twice :
  let once := snd (loadKnowledgeBase Sample.answering [lit "knowledge.txt"] Sample.start) in
  let twice := snd (loadKnowledgeBase Sample.answering [lit "knowledge.txt"] once) in
  vectorStore once = [mkChunk [1; 0] Sample.knowledge (lit "knowledge.txt")]
  /\ vectorStore twice = vectorStore once.
Proof. vm_compute. split; reflexivity. Qed.

(** *** C9: concurrent first queries *)

Import EventLoop.

Lemma runAlone_add (w : World) (n m : nat) :
  forall t store,
    runAlone w (n + m) t store
    = let '(t', store') := runAlone w n t store in runAlone w m t' store'.
Proof.
  induction n as [|n IH]; intros t store; simpl; [reflexivity|].
  destruct (resume w t store) as [t' store']. apply IH.
Qed.

(** The segments of the inner loop, run one after the other, do what
    [embedDocs] does. *)
Lemma runAlone_embedDocs (w : World) (path : jsString) (filePaths' : list jsString)
      (docs : list jsString) :
  forall store cs, exists n,
    runAlone w n (enterDocs w path docs filePaths') store
    = (match fst (embedDocs w path docs (mkState store cs)) with
       | Normal _ => enterFiles w filePaths'
       | Throw e => Failed e
       end,
       vectorStore (snd (embedDocs w path docs (mkState store cs)))).
Proof.
  induction docs as [|d docs IH]; intros store cs.
  - exists 0%nat. reflexivity.
  - simpl embedDocs. unfold bind, await, push. simpl.
    destruct (embedQuery w d) as [v|e] eqn:He.
    + destruct (IH (store ++ [mkChunk v d path]) (cs ++ [CallEmbed d])) as (n & Hn).
      exists (S n). simpl. rewrite He. exact Hn.
    + exists 1%nat. simpl. now rewrite He.
Qed.

(** A call that nothing interrupts is [loadKnowledgeBase]: its segments end
    in [Returned] or [Failed] as the function returns or throws, with the
    same store. *)
Lemma runAlone_loadFiles (w : World) (filePaths : list jsString) :
  forall store cs, exists n,
    runAlone w n (enterFiles w filePaths) store
    = (taskOf (fst (loadFiles w filePaths (mkState store cs))),
       vectorStore (snd (loadFiles w filePaths (mkState store cs)))).
Proof.
  induction filePaths as [|path rest IH]; intros store cs.
  - exists 0%nat. reflexivity.
  - simpl. destruct (existsSync w path); simpl; [|apply IH].
    unfold bind, liftC, await.
    destruct (readFileSync w path) as [raw|e]; [|exists 0%nat; reflexivity].
    destruct (trim raw) as [|c t]; [apply IH|].
    destruct (createDocuments w (c :: t)) as [docs|e] eqn:Hd;
      [|exists 1%nat; simpl; now rewrite Hd].
    destruct (runAlone_embedDocs w path rest docs store (cs ++ [CallSplit (c :: t)]))
      as (n1 & H1).
    simpl vectorStore. simpl calls.
    destruct (embedDocs w path docs _) as [[u|e] [store1 cs1]]; simpl in H1.
    + destruct (IH store1 cs1) as (n2 & H2).
      exists (S (n1 + n2)). simpl. rewrite Hd, runAlone_add, H1. exact H2.
    + exists (S n1). simpl. rewrite Hd. exact H1.
Qed.

Lemma runAlone_loadKnowledgeBase (w : World) (filePaths : list jsString)
      (s : State) :
  exists n t,
    runAlone w n (Entered filePaths) (vectorStore s)
    = (t, vectorStore (snd (loadKnowledgeBase w filePaths s)))
    /\ finished t = true
    /\ (t = Returned <-> exists r, fst (loadKnowledgeBase w filePaths s) = Normal r).
Proof.
  unfold loadKnowledgeBase, bind, getStore, ret.
  destruct (0 <? length (vectorStore s))%nat eqn:G.
  - exists 1%nat, Returned. simpl. rewrite G. repeat split; eauto.
  - destruct (runAlone_loadFiles w filePaths (vectorStore s) (calls s)) as (n & Hn).
    replace (mkState (vectorStore s) (calls s)) with s in Hn by now destruct s.
    destruct (loadFiles w filePaths s) as [[u|e] s'] eqn:E; simpl in Hn.
    + exists (S n), Returned. simpl. rewrite G, Hn. repeat split; eauto.
    + exists (S n), (Failed e). simpl. rewrite G, Hn. repeat split.
      * discriminate.
      * intros (r & Hr). discriminate.
Qed.

(** Past the guard, a call never looks at the store again: each segment
    pushes the next of its pending chunks, whatever the store holds. *)
Lemma pending_enterFiles (w : World) (filePaths : list jsString) :
  pending w (enterFiles w filePaths) = pendingFiles w filePaths.
Proof.
  induction filePaths as [|path rest IH]; [reflexivity|].
  simpl. destruct (existsSync w path); simpl; [|exact IH].
  destruct (readFileSync w path) as [raw|e]; [|reflexivity].
  destruct (trim raw) as [|c t]; [exact IH | reflexivity].
Qed.

Lemma pending_enterDocs (w : World) (path : jsString)
      (docs filePaths' : list jsString) :
  pending w (enterDocs w path docs filePaths')
  = pendingDocs w path docs (pendingFiles w filePaths').
Proof.
  destruct docs as [|d docs]; simpl; [apply pending_enterFiles | reflexivity].
Qed.

Lemma pastGuard_enterFiles (w : World) (filePaths : list jsString) :
  pastGuard (enterFiles w filePaths) = true.
Proof.
  induction filePaths as [|path rest IH]; [reflexivity|].
  simpl. destruct (existsSync w path); simpl; [|exact IH].
  destruct (readFileSync w path) as [raw|e]; [|reflexivity].
  destruct (trim raw) as [|c t]; [exact IH | reflexivity].
Qed.

Lemma resume_pastGuard (w : World) (t : Task) (store : list Chunk) :
  pastGuard t = true ->
  pastGuard (fst (resume w t store)) = true
  /\ exists pushed,
      snd (resume w t store) = store ++ pushed
      /\ pending w t = pushed ++ pending w (fst (resume w t store)).
Proof.
  assert (Hdocs : forall path docs rest, pastGuard (enterDocs w path docs rest) = true)
    by (intros path [|d docs] rest; [apply pastGuard_enterFiles | reflexivity]).
  destruct t as [paths|path txt rest|path d docs rest| |e]; intros Hg;
    try discriminate; simpl.
  - destruct (createDocuments w txt) as [docs|e]; simpl.
    + split; [apply Hdocs|]. exists []. rewrite app_nil_r, pending_enterDocs. auto.
    + split; [reflexivity|]. exists []. rewrite app_nil_r. auto.
  - destruct (embedQuery w d) as [v|e]; simpl.
    + split; [apply Hdocs|]. exists [mkChunk v d path].
      rewrite pending_enterDocs. auto.
    + split; [reflexivity|]. exists []. rewrite app_nil_r. auto.
  - split; [reflexivity|]. exists []. rewrite app_nil_r. auto.
  - split; [reflexivity|]. exists []. rewrite app_nil_r. auto.
Qed.

(** Two calls past the guard: every chunk either has pending ends up in the
    store, whatever the schedule. *)
Lemma interleave_pastGuard (w : World) (schedule : list bool) :
  forall (t1 t2 : Task) (store : list Chunk),
    pastGuard t1 = true -> pastGuard t2 = true ->
    let '(t1', t2', store') := interleave w schedule t1 t2 store in
    (length store' + length (pending w t1') + length (pending w t2')
     = length store + length (pending w t1) + length (pending w t2))%nat.
Proof.
  induction schedule as [|who schedule IH]; intros t1 t2 store H1 H2;
    [reflexivity|].
  destruct who; simpl.
  - destruct (resume_pastGuard w t2 store H2) as (Hg & pushed & Hs & Hp).
    destruct (resume w t2 store) as [t2' store']. simpl in Hg, Hs, Hp.
    specialize (IH t1 t2' store' H1 Hg).
    destruct (interleave w schedule t1 t2' store') as [[u1 u2] final].
    rewrite IH, Hs, Hp, !length_app. lia.
  - destruct (resume_pastGuard w t1 store H1) as (Hg & pushed & Hs & Hp).
    destruct (resume w t1 store) as [t1' store']. simpl in Hg, Hs, Hp.
    specialize (IH t1' t2 store' Hg H2).
    destruct (interleave w schedule t1' t2 store') as [[u1 u2] final].
    rewrite IH, Hs, Hp, !length_app. lia.
Qed.

Lemma pending_finished (w : World) (t : Task) :
  finished t = true -> pending w t = [].
Proof. destruct t; try discriminate; reflexivity. Qed.

Lemma runAlone_pastGuard (w : World) (n : nat) :
  forall (t : Task) (store : list Chunk),
    pastGuard t = true ->
    pastGuard (fst (runAlone w n t store)) = true
    /\ (length (snd (runAlone w n t store))
        + length (pending w (fst (runAlone w n t store)))
        = length store + length (pending w t))%nat.
Proof.
  induction n as [|n IH]; intros t store Hg; [simpl; auto|].
  simpl. destruct (resume_pastGuard w t store Hg) as (Hg' & pushed & Hs & Hp).
  destruct (resume w t store) as [t' store']. simpl in Hg', Hs, Hp.
  destruct (IH t' store' Hg') as [IH1 IH2].
  split; [exact IH1|]. rewrite IH2, Hs, Hp, !length_app. lia.
Qed.

(** In every world: let the first call have run some segments without
    pushing anything yet when the second call enters.  Then, however the
    segments interleave from there, once both calls have ended the store
    holds twice the chunks of one build. *)
Lemma concurrent_builds_double (w : World) (filePaths : list jsString)
      (lead : nat) (schedule : list bool) (t1 t1' t2' : Task)
      (store : list Chunk) :
  runAlone w (S lead) (Entered filePaths) [] = (t1, []) ->
  interleave w (true :: schedule) t1 (Entered filePaths) [] = (t1', t2', store) ->
  finished t1' = true -> finished t2' = true ->
  length store
  = (2 * length (vectorStore
                   (snd (loadKnowledgeBase w filePaths (mkState [] [])))))%nat.
Proof.
  intros Hlead Hrun F1 F2. rewrite loadKnowledgeBase_builds.
  simpl in Hlead, Hrun.
  destruct (runAlone_pastGuard w lead (enterFiles w filePaths) []
                               (pastGuard_enterFiles w filePaths)) as [G1 L1].
  rewrite Hlead in G1, L1. simpl in G1, L1. rewrite pending_enterFiles in L1.
  pose proof (interleave_pastGuard w schedule t1 (enterFiles w filePaths) []
                G1 (pastGuard_enterFiles w filePaths)) as H.
  rewrite Hrun in H.
  rewrite (pending_finished w t1' F1), (pending_finished w t2' F2),
    pending_enterFiles in H.
  simpl in H. lia.
Qed.

(** C9, checked on the code: two first queries in flight on an empty index
    both pass the guard of line 145 and both build.  With one knowledge file
    of one chunk: the first call runs up to its embedding request, the
    second call then finds the store still empty and does the same, and the
    two answers of the embedding model are pushed one after the other.  Two
    builds were started and the chunk is twice in the store, where a lone
    call leaves it once. *)
Theorem concurrent_first_queries_build_twice :
  let w := Sample.answering in
  let chunk := mkChunk [1; 0] Sample.knowledge (lit "knowledge.txt") in
  let turns := [false; false; true; true; false; true] in
  interleave w turns (Entered (KNOWLEDGE_FILES w)) (Entered (KNOWLEDGE_FILES w)) []
  = (Returned, Returned, [chunk; chunk])
  /\ buildsStarted w turns (Entered (KNOWLEDGE_FILES w)) (Entered (KNOWLEDGE_FILES w)) []
     = 2%nat
  /\ runAlone w 3 (Entered (KNOWLEDGE_FILES w)) [] = (Returned, [chunk]).
Proof. vm_compute. repeat split. Qed.

(** A query that arrives while a build is under way finds a non-empty store,
    returns at once, and goes on with the part of the index built so far. *)
Example second_query_sees_partial_index :
  let w := {| unicodeLower := fun s => s;
              sortOrder := V8.order;
              KNOWLEDGE_FILES := [lit "a.txt"; lit "b.txt"];
              validationChain := fun _ => Normal (lit "valid");
              roleChain := fun _ => Normal (lit "general_info");
              embedQuery := fun _ => Normal [1; 0];
              existsSync := fun _ => true;
              readFileSync := fun path => Normal path;
              createDocuments := fun input => Normal [input];
              chatModel := fun _ _ => Normal None |} in
  interleave w [false; false; false; true]
             (Entered (KNOWLEDGE_FILES w)) (Entered (KNOWLEDGE_FILES w)) []
  = (AtSplit (lit "b.txt") (lit "b.txt") [], Returned,
     [mkChunk [1; 0] (lit "a.txt") (lit "a.txt")]).
Proof. vm_compute. reflexivity. Qed.

(** *** Binary64 arithmetic *)

Module Binary64Facts.
Import Binary64.

(** The primitive operations, read through their specification. *)
Ltac to_spec :=
  rewrite ?mul_spec, ?add_spec, ?sub_spec, ?div_spec, ?sqrt_spec, ?opp_spec;
  unfold SF64mul, SF64add, SF64sub, SF64div, SF64sqrt.

Lemma SFmul_comm (x y : spec_float) :
  SFmul prec emax x y = SFmul prec emax y x.
Proof.
  destruct x as [sx|sx| |sx mx ex], y as [sy|sy| |sy my ey]; simpl;
    rewrite ?(xorb_comm sx sy); try reflexivity.
  now rewrite Pos.mul_comm, Z.add_comm.
Qed.

Lemma mul_comm (x y : float) : x * y = y * x.
Proof. apply Prim2SF_inj. to_spec. apply SFmul_comm. Qed.

Lemma isNaN_eq (x : float) : isNaN x <-> x = nan.
Proof.
  split; [intros H; now apply Prim2SF_inj | intros ->; reflexivity].
Qed.


Lemma eqb_zero (x : float) : (x =? 0) = true <-> isZero x.
Proof.
  rewrite eqb_spec. unfold isZero, SFeqb. change (Prim2SF 0) with (S754_zero false).
  destruct (Prim2SF x) as [s|s| |s m e]; simpl; split;
    try discriminate; try (intros (s' & H); discriminate); eauto;
    destruct s; discriminate.
Qed.

(** A zero times anything is a zero or NaN. *)
Lemma mul_zero_l (x y : float) :
  isZero x -> isZero (x * y) \/ isNaN (x * y).
Proof.
  unfold isZero, isNaN. intros (s & Hx). to_spec. rewrite Hx.
  destruct (Prim2SF y) as [sy|sy| |sy my ey]; simpl; eauto.
Qed.

Lemma mul_self_zero (x : float) : isZero x -> x * x = 0.
Proof.
  intros (s & Hx). apply Prim2SF_inj. to_spec. rewrite Hx. simpl.
  now rewrite xorb_nilpotent.
Qed.

(** Adding a zero or NaN to [+0] or NaN gives [+0] or NaN. *)
Lemma add_zero_or_nan (acc x : float) :
  acc = 0 \/ acc = nan ->
  isZero x \/ isNaN x ->
  acc + x = 0 \/ acc + x = nan.
Proof.
  intros Hacc Hx.
  assert (H : Prim2SF (acc + x) = S754_zero false \/ Prim2SF (acc + x) = S754_nan).
  { to_spec. destruct Hacc as [-> | ->], Hx as [(s & ->) | ->];
      try (right; reflexivity); try (destruct s; left; reflexivity). }
  destruct H as [H | H]; [left | right]; now apply Prim2SF_inj.
Qed.

(** [+0] or NaN divided by a zero or NaN is NaN. *)
Lemma div_zero_or_nan (num den : float) :
  num = 0 \/ num = nan ->
  isZero den \/ isNaN den ->
  num / den = nan.
Proof.
  intros Hn Hd. apply Prim2SF_inj. to_spec.
  destruct Hn as [-> | ->], Hd as [(s & ->) | ->]; reflexivity.
Qed.

(** A value that is not NaN equals itself under [===]. *)
Lemma eqb_refl (x : float) : x <> nan -> (x =? x) = true.
Proof.
  intros H. rewrite eqb_spec. unfold SFeqb.
  assert (Hn : Prim2SF x <> S754_nan) by (intros E; apply H; now apply Prim2SF_inj).
  destruct (Prim2SF x) as [s|s| |s m e]; simpl; try congruence.
  - now destruct s.
  - rewrite Z.compare_refl, Pos.compare_cont_refl. now destruct s.
Qed.


(** **** Order

    Validity of a finite value pins its exponent and the size of its
    mantissa, so that values can be compared as integers. *)

Local Open Scope Z_scope.
Unset Implicit Arguments.

Lemma digits2_size (m : positive) : digits2_pos m = Pos.size m.
Proof. induction m; simpl; congruence. Qed.

Lemma digits2_bounds (m : positive) :
  2 ^ (Zpos (digits2_pos m) - 1) <= Zpos m < 2 ^ Zpos (digits2_pos m).
Proof.
  rewrite digits2_size. split.
  - pose proof (Pos.size_le m) as H.
    apply Pos2Z.pos_le_pos in H. rewrite Pos2Z.inj_pow in H.
    replace (Zpos (Pos.size m)) with (Zpos (Pos.size m) - 1 + 1) in H by lia.
    rewrite Z.pow_add_r in H by lia. change (Zpos m~0) with (2 * Zpos m) in H. lia.
  - pose proof (Pos.size_gt m) as H.
    apply Pos2Z.pos_lt_pos in H. now rewrite Pos2Z.inj_pow in H.
Qed.

(** What validity says of a finite value. *)
Lemma bounded_inv (m : positive) (e : Z) :
  bounded prec emax m e = true ->
  -1074 <= e <= 971
  /\ Zpos (digits2_pos m) <= 53
  /\ (-1074 < e -> Zpos (digits2_pos m) = 53).
Proof.
  unfold bounded, canonical_mantissa, fexp, SpecFloat.emin, prec, emax.
  rewrite andb_true_iff, Z.eqb_eq, Z.leb_le. lia.
Qed.

Lemma rank_finite_bounds (m : positive) (e : Z) :
  bounded prec emax m e = true ->
  0 < Zpos m * 2 ^ (e + 1074) < 2 ^ 2098.
Proof.
  intros H. apply bounded_inv in H. destruct H as (He & Hd & _).
  pose proof (digits2_bounds m) as [_ Hm].
  assert (Hp : 0 < 2 ^ (e + 1074)) by (apply Z.pow_pos_nonneg; lia).
  split; [lia|].
  apply Z.lt_le_trans with (2 ^ 53 * 2 ^ (e + 1074)).
  - apply Z.mul_lt_mono_pos_r; [assumption|].
    apply Z.lt_le_trans with (1 := Hm). apply Z.pow_le_mono_r; lia.
  - rewrite <- Z.pow_add_r by lia. apply Z.pow_le_mono_r; lia.
Qed.

Lemma rank_finite_compare (m1 m2 : positive) (e1 e2 : Z) :
  bounded prec emax m1 e1 = true ->
  bounded prec emax m2 e2 = true ->
  (Zpos m1 * 2 ^ (e1 + 1074) ?= Zpos m2 * 2 ^ (e2 + 1074))
  = match e1 ?= e2 with
    | Lt => Lt
    | Gt => Gt
    | Eq => Pos.compare_cont Eq m1 m2
    end.
Proof.
  assert (Hlt : forall m1 m2 e1 e2,
             bounded prec emax m1 e1 = true ->
             bounded prec emax m2 e2 = true ->
             e1 < e2 ->
             Zpos m1 * 2 ^ (e1 + 1074) < Zpos m2 * 2 ^ (e2 + 1074)).
  { clear. intros m1 m2 e1 e2 H1 H2 Hlt.
    apply bounded_inv in H1, H2.
    destruct H1 as (He1 & Hd1 & _), H2 as (He2 & _ & Hd2).
    pose proof (digits2_bounds m1) as [_ Hm1].
    pose proof (digits2_bounds m2) as [Hm2 _].
    rewrite Hd2 in Hm2 by lia.
    assert (Hp : 0 < 2 ^ (e1 + 1074)) by (apply Z.pow_pos_nonneg; lia).
    replace (e2 + 1074) with ((e2 - e1) + (e1 + 1074)) by lia.
    rewrite (Z.pow_add_r 2 (e2 - e1) (e1 + 1074)) by lia. rewrite Z.mul_assoc.
    apply Z.mul_lt_mono_pos_r; [assumption|].
    assert (Ha : Zpos m1 < 2 ^ 53).
    { apply Z.lt_le_trans with (1 := Hm1). apply Z.pow_le_mono_r; lia. }
    assert (Hb : 2 ^ 1 <= 2 ^ (e2 - e1)) by (apply Z.pow_le_mono_r; lia).
    assert (Hc : 2 ^ 53 = 2 ^ (53 - 1) * 2 ^ 1) by reflexivity.
    assert (Hd : 0 < 2 ^ (53 - 1)) by reflexivity.
    nia. }
  intros H1 H2. destruct (Z.compare_spec e1 e2) as [-> | H | H].
  - pose proof (bounded_inv _ _ H2) as (He & _).
    rewrite <- Zmult_compare_compat_r by (apply Z.lt_gt, Z.pow_pos_nonneg; lia).
    reflexivity.
  - apply Z.compare_lt_iff. now apply Hlt.
  - apply Z.compare_gt_iff. now apply Hlt.
Qed.

Lemma SFcompare_rank (x y : spec_float) :
  valid_binary x = true -> valid_binary y = true ->
  x <> S754_nan -> y <> S754_nan ->
  SFcompare x y = Some (rank x ?= rank y).
Proof.
  intros Hx Hy Nx Ny.
  assert (Hinf : 0 < 2 ^ 2098) by (apply Z.pow_pos_nonneg; lia).
  destruct x as [sx|sx| |sx mx ex], y as [sy|sy| |sy my ey];
    try congruence; simpl in Hx, Hy;
    try pose proof (rank_finite_bounds _ _ Hx);
    try pose proof (rank_finite_bounds _ _ Hy);
    try (try destruct sx; try destruct sy;
         unfold SFcompare, rank, cond_Zopp; f_equal; symmetry;
         first [ apply Z.compare_eq_iff; lia
               | apply Z.compare_lt_iff; lia
               | apply Z.compare_gt_iff; lia ]).
  pose proof (rank_finite_compare _ _ _ _ Hx Hy) as Hc.
  destruct sx, sy; unfold SFcompare, rank, cond_Zopp; f_equal.
  - rewrite Z.compare_opp, (Z.compare_antisym (Zpos mx * 2 ^ (ex + 1074))), Hc.
    destruct (ex ?= ey); reflexivity.
  - symmetry. apply Z.compare_lt_iff. lia.
  - symmetry. apply Z.compare_gt_iff. lia.
  - now rewrite <- Hc.
Qed.

(** Rounding keeps the sign. *)












(** **** Accuracy

    A value of [d] digits lies between two powers of two. *)
Lemma digits2_unique (m : positive) (d : Z) :
  2 ^ (d - 1) <= Zpos m < 2 ^ d -> Zpos (digits2_pos m) = d.
Proof.
  intros [Hlo Hhi]. pose proof (digits2_bounds m) as [Blo Bhi].
  set (k := Zpos (digits2_pos m)) in *.
  assert (Hk : 0 < k) by (unfold k; lia).
  assert (Hd : 0 < d).
  { destruct (Z.le_gt_cases d 0) as [H|H]; [|lia].
    exfalso. assert (2 ^ d <= 2 ^ 0) by (destruct (Z.eq_dec d 0) as [->|]; [lia|rewrite Z.pow_neg_r by lia; lia]).
    simpl in *. lia. }
  destruct (Z.lt_trichotomy k d) as [H | [H | H]]; [|assumption|].
  - exfalso. assert (2 ^ k <= 2 ^ (d - 1)) by (apply Z.pow_le_mono_r; lia). lia.
  - exfalso. assert (2 ^ d <= 2 ^ (k - 1)) by (apply Z.pow_le_mono_r; lia). lia.
Qed.



Lemma iterate_add {A} (f : A -> A) (a b : nat) (x : A) :
  iterate f (a + b) x = iterate f a (iterate f b x).
Proof. induction a; simpl; congruence. Qed.

Lemma iterate_S {A} (f : A -> A) (a : nat) (x : A) :
  iterate f (S a) x = iterate f a (f x).
Proof. replace (S a) with (a + 1)%nat by lia. now rewrite iterate_add. Qed.

Lemma iter_pos_nat {A} (f : A -> A) (p : positive) :
  forall x, iter_pos f p x = iterate f (Pos.to_nat p) x.
Proof.
  induction p as [p IH|p IH|]; intros x; simpl iter_pos.
  - rewrite !IH. rewrite Pos2Nat.inj_xI.
    replace (S (2 * Pos.to_nat p)) with (Pos.to_nat p + (Pos.to_nat p + 1))%nat by lia.
    rewrite !iterate_add. reflexivity.
  - rewrite !IH. rewrite Pos2Nat.inj_xO.
    replace (2 * Pos.to_nat p)%nat with (Pos.to_nat p + Pos.to_nat p)%nat by lia.
    now rewrite iterate_add.
  - reflexivity.
Qed.


Lemma located_shr_1 (N W : Z) (rec : shr_record) :
  0 < W -> located N W rec -> located N (2 * W) (shr_1 rec).
Proof.
  intros HW (Hm & Hb & Hl).
  destruct rec as [m r s]. cbn [shr_m] in *.
  set (rho := N - m * W) in *.
  assert (Hrho : 0 <= rho < W) by (unfold rho; lia).
  assert (Hrs : orb r s = negb (rho =? 0)).
  { unfold locOf in Hl. destruct (Z.eqb_spec rho 0) as [E|E];
      destruct r, s; simpl in Hl; try discriminate; reflexivity. }
  assert (Hcase : exists m' b, m = 2 * m' + Z.b2z b /\ 0 <= m'
            /\ shr_1 {| shr_m := m; shr_r := r; shr_s := s |}
               = {| shr_m := m'; shr_r := b; shr_s := orb r s |}).
  { destruct m as [|[p|p|]|p]; try lia.
    - exists 0, false. simpl. repeat split; try reflexivity; lia.
    - exists (Zpos p), true. simpl. repeat split; try reflexivity; lia.
    - exists (Zpos p), false. simpl. repeat split; try reflexivity; lia.
    - exists 0, true. simpl. repeat split; try reflexivity; lia. }
  destruct Hcase as (m' & b & Em & Hm' & ->). rewrite Hrs.
  unfold located. cbn [shr_m].
  split; [assumption|]. split.
  - rewrite Em in Hb. destruct b; simpl Z.b2z in Hb; split; nia.
  - replace (N - m' * (2 * W)) with (Z.b2z b * W + rho)
      by (unfold rho; rewrite Em; ring).
    unfold locOf. cbn [loc_of_shr_record].
    destruct b; cbn [Z.b2z]; destruct (Z.eqb_spec rho 0) as [E|E]; cbn [negb].
    + assert (H1 : (1 * W + rho =? 0) = false) by (apply Z.eqb_neq; lia).
      assert (H2 : (2 * (1 * W + rho) ?= 2 * W) = Eq) by (apply Z.compare_eq_iff; lia).
      now rewrite H1, H2.
    + assert (H1 : (1 * W + rho =? 0) = false) by (apply Z.eqb_neq; lia).
      assert (H2 : (2 * (1 * W + rho) ?= 2 * W) = Gt) by (apply Z.compare_gt_iff; lia).
      now rewrite H1, H2.
    + assert (H1 : (0 * W + rho =? 0) = true) by (apply Z.eqb_eq; lia).
      now rewrite H1.
    + assert (H1 : (0 * W + rho =? 0) = false) by (apply Z.eqb_neq; lia).
      assert (H2 : (2 * (0 * W + rho) ?= 2 * W) = Lt) by (apply Z.compare_lt_iff; lia).
      now rewrite H1, H2.
Qed.

Lemma located_iter (N W : Z) (n : nat) :
  forall rec, 0 < W -> located N W rec ->
              located N (2 ^ Z.of_nat n * W) (iterate shr_1 n rec).
Proof.
  induction n as [|n IH]; intros rec HW H.
  - change (2 ^ Z.of_nat 0) with 1. rewrite Z.mul_1_l. exact H.
  - simpl iterate. rewrite Nat2Z.inj_succ, Z.pow_succ_r by lia.
    replace (2 * 2 ^ Z.of_nat n * W) with (2 * (2 ^ Z.of_nat n * W)) by ring.
    apply located_shr_1; [|now apply IH].
    assert (0 < 2 ^ Z.of_nat n) by (apply Z.pow_pos_nonneg; lia). nia.
Qed.

Lemma located_of_loc (N W m : Z) (l : location) :
  0 <= m -> m * W <= N < (m + 1) * W -> l = locOf (N - m * W) W ->
  located N W (shr_record_of_loc m l).
Proof.
  intros Hm Hb Hl. unfold located.
  assert (Hm' : shr_m (shr_record_of_loc m l) = m) by (destruct l as [|[]]; reflexivity).
  rewrite Hm'. repeat split; try lia.
  rewrite <- Hl. destruct l as [|[]]; reflexivity.
Qed.

Lemma Zdigits2_unique (m d : Z) :
  0 < m -> 2 ^ (d - 1) <= m < 2 ^ d -> Zdigits2 m = d.
Proof.
  intros Hm H. destruct m as [|p|p]; try lia. simpl. now apply digits2_unique.
Qed.

(** What [shr_fexp] does with a mantissa of [d >= 53] digits whose exponent
    is in range: it drops the [d - 53] last digits and keeps their
    location. *)
Lemma shr_fexp_located (N D m e d : Z) (l : location) :
  0 < D -> 0 < m ->
  m * D <= N < (m + 1) * D -> l = locOf (N - m * D) D ->
  2 ^ (d - 1) <= m < 2 ^ d -> 53 <= d -> -1074 <= e + d - 53 ->
  exists rec,
    shr_fexp prec emax m e l = (rec, e + (d - 53))
    /\ located N (2 ^ (d - 53) * D) rec
    /\ 2 ^ 52 <= shr_m rec < 2 ^ 53.
Proof.
  intros HD Hm Hb Hl Hd H53 He.
  unfold shr_fexp. rewrite (Zdigits2_unique m d Hm Hd).
  unfold fexp, SpecFloat.emin, prec, emax.
  replace (Z.max (d + e - 53) (3 - 1024 - 53) - e) with (d - 53) by lia.
  pose proof (located_of_loc N D m l ltac:(lia) Hb Hl) as H0.
  assert (Hrange : forall rec, located N (2 ^ (d - 53) * D) rec ->
                               2 ^ 52 <= shr_m rec < 2 ^ 53).
  { intros rec (Hr0 & Hrb & _).
    assert (Hp : 0 < 2 ^ (d - 53)) by (apply Z.pow_pos_nonneg; lia).
    assert (E1 : 2 ^ (d - 1) = 2 ^ 52 * 2 ^ (d - 53))
      by (rewrite <- Z.pow_add_r by lia; f_equal; lia).
    assert (E2 : 2 ^ d = 2 ^ 53 * 2 ^ (d - 53))
      by (rewrite <- Z.pow_add_r by lia; f_equal; lia).
    set (W := 2 ^ (d - 53) * D) in *.
    assert (HW : 0 < W) by (unfold W; nia).
    assert (L1 : 2 ^ 52 * W <= N) by (unfold W; nia).
    assert (L2 : N < 2 ^ 53 * W) by (unfold W; nia).
    split; nia. }
  unfold shr.
  destruct (d - 53) as [|p|p] eqn:En; try lia.
  - exists (shr_record_of_loc m l). rewrite Z.add_0_r.
    change (2 ^ 0) with 1 in *. rewrite Z.mul_1_l in *.
    split; [reflexivity|]. split; [assumption|]. now apply Hrange.
  - exists (iter_pos shr_1 p (shr_record_of_loc m l)).
    split; [reflexivity|].
    assert (Hloc : located N (2 ^ Zpos p * D) (iter_pos shr_1 p (shr_record_of_loc m l))).
    { rewrite iter_pos_nat. rewrite <- (positive_nat_Z p).
      now apply located_iter. }
    split; [assumption|]. now apply Hrange.
Qed.

(** Rounding to nearest, ties to even, is within half a step. *)
Lemma round_nearest_even_located (N W : Z) (rec : shr_record) :
  0 < W -> located N W rec ->
  let m := round_nearest_even (shr_m rec) (loc_of_shr_record rec) in
  (m = shr_m rec \/ m = shr_m rec + 1)
  /\ 2 * m * W - W <= 2 * N <= 2 * m * W + W.
Proof.
  intros HW (Hm & Hb & Hl). cbv zeta. rewrite Hl. unfold locOf.
  set (rho := N - shr_m rec * W) in *.
  assert (Hrho : 0 <= rho < W) by (unfold rho; lia).
  assert (EN : N = shr_m rec * W + rho) by (unfold rho; ring).
  set (m0 := shr_m rec) in *.
  destruct (Z.eqb_spec rho 0) as [E|E]; cbn [round_nearest_even].
  - split; [now left | nia].
  - destruct (Z.compare_spec (2 * rho) W) as [C|C|C]; cbn [round_nearest_even].
    + destruct (Z.even m0); split; auto; nia.
    + split; [now left | nia].
    + split; [now right | nia].
Qed.

(** [binary_round_aux] on a located value whose result is normal: the
    result is [m2] steps of [2 ^ (e + d - 53)], with [m2] within half a
    step of the value; when [m2] is [2 ^ 53] the mantissa is halved and the
    exponent is one more. *)
Lemma binary_round_aux_located (N D m e d : Z) (l : location) :
  0 < D -> 0 < m ->
  m * D <= N < (m + 1) * D -> l = locOf (N - m * D) D ->
  2 ^ (d - 1) <= m < 2 ^ d -> 53 <= d ->
  -1074 <= e + d - 53 -> e + d - 53 < 971 ->
  exists (m' : positive) (e' m2 : Z),
    binary_round_aux prec emax false m e l = S754_finite false m' e'
    /\ 2 ^ 52 <= Zpos m' < 2 ^ 53
    /\ 2 ^ 52 <= m2
    /\ (e' = e + (d - 53) /\ m2 = Zpos m'
        \/ e' = e + (d - 53) + 1 /\ m2 = 2 * Zpos m')
    /\ 2 * m2 * (2 ^ (d - 53) * D) - 2 ^ (d - 53) * D
       <= 2 * N
       <= 2 * m2 * (2 ^ (d - 53) * D) + 2 ^ (d - 53) * D.
Proof.
  intros HD Hm Hb Hl Hd H53 He Hmax.
  destruct (shr_fexp_located N D m e d l HD Hm Hb Hl Hd H53 He)
    as (rec & Hshr & Hloc & Hrange).
  unfold binary_round_aux. rewrite Hshr.
  assert (Hp : 0 < 2 ^ (d - 53)) by (apply Z.pow_pos_nonneg; lia).
  set (W := 2 ^ (d - 53) * D) in *.
  assert (HW : 0 < W) by (unfold W; nia).
  destruct (round_nearest_even_located N W rec HW Hloc) as [Hm2 Hacc].
  set (m2 := round_nearest_even (shr_m rec) (loc_of_shr_record rec)) in *.
  assert (Hm2r : 2 ^ 52 <= m2 <= 2 ^ 53) by lia.
  destruct (Z.eq_dec m2 (2 ^ 53)) as [E53 | N53].
  - (* the carry: one more shift *)
    rewrite E53. rewrite E53 in Hacc.
    unfold shr_fexp.
    replace (Zdigits2 (2 ^ 53)) with 54 by reflexivity.
    unfold fexp, SpecFloat.emin, prec, emax.
    replace (Z.max (54 + (e + (d - 53)) - 53) (3 - 1024 - 53) - (e + (d - 53)))
      with 1 by lia.
    cbn [shr shr_record_of_loc iter_pos].
    replace (shr_m (shr_1 {| shr_m := 2 ^ 53; shr_r := false; shr_s := false |}))
      with (Zpos 4503599627370496) by (vm_compute; reflexivity).
    replace (e + (d - 53) + 1 <=? 1024 - 53) with true
      by (symmetry; apply Z.leb_le; lia).
    exists 4503599627370496%positive, (e + (d - 53) + 1), (2 ^ 53).
    split; [reflexivity|].
    split; [change (Zpos 4503599627370496) with (2 ^ 52); lia|].
    split; [lia|].
    split; [right; split; [reflexivity | vm_compute; reflexivity]|].
    exact Hacc.
  - assert (Hlt : 2 ^ 52 <= m2 < 2 ^ 53) by lia.
    assert (Hpos : 0 < m2) by lia.
    unfold shr_fexp. rewrite (Zdigits2_unique m2 53 Hpos Hlt).
    unfold fexp, SpecFloat.emin, prec, emax.
    replace (Z.max (53 + (e + (d - 53)) - 53) (3 - 1024 - 53) - (e + (d - 53)))
      with 0 by lia.
    cbn [shr shr_record_of_loc shr_m].
    clearbody m2.
    destruct m2 as [|p2|p2]; [exfalso; clear - Hpos; lia | | exfalso; clear - Hpos; lia].
    replace (e + (d - 53) <=? 1024 - 53) with true
      by (symmetry; apply Z.leb_le; clear - Hmax; lia).
    exists p2, (e + (d - 53)), (Zpos p2).
    split; [reflexivity|]. split; [assumption|]. split; [clear - Hlt; lia|].
    split; [left; split; reflexivity|]. exact Hacc.
Qed.

Lemma new_location_locOf (D r : Z) :
  0 < D -> 0 <= r < D -> new_location D r = locOf r D.
Proof.
  intros HD Hr. unfold new_location, locOf.
  destruct (Z.even D) eqn:Ev.
  - reflexivity.
  - unfold new_location_odd.
    destruct (Z.eqb_spec r 0) as [E|E]; [reflexivity|]. f_equal.
    assert (Hodd : Z.odd D = true) by (rewrite <- Z.negb_even, Ev; reflexivity).
    apply Z.odd_spec in Hodd. destruct Hodd as (h & Hh).
    destruct (Z.compare_spec (2 * r + 1) D) as [C|C|C];
      symmetry; [apply Z.compare_lt_iff | apply Z.compare_lt_iff
                 | apply Z.compare_gt_iff]; lia.
Qed.

(** Division of two normal values. *)
Lemma SFdiv_located (m1 m2 : positive) (e1 e2 : Z) :
  2 ^ 52 <= Zpos m1 < 2 ^ 53 -> 2 ^ 52 <= Zpos m2 < 2 ^ 53 ->
  -1021 <= e1 - e2 <= 1021 ->
  exists (mr : positive) (er g t : Z),
    SFdiv prec emax (S754_finite false m1 e1) (S754_finite false m2 e2)
    = S754_finite false mr er
    /\ 2 ^ 52 <= Zpos mr < 2 ^ 53
    /\ 2 ^ 52 <= g
    /\ (t = 0 \/ t = 1)
    /\ (er = e1 - e2 - 53 + t /\ g = Zpos mr
        \/ er = e1 - e2 - 53 + t + 1 /\ g = 2 * Zpos mr)
    /\ 2 * g * (2 ^ t * Zpos m2) - 2 ^ t * Zpos m2
       <= 2 * (Zpos m1 * 2 ^ 53)
       <= 2 * g * (2 ^ t * Zpos m2) + 2 ^ t * Zpos m2.
Proof.
  intros H1 H2 He.
  unfold SFdiv, SFdiv_core_binary.
  cbn [Zdigits2 xorb].
  rewrite (digits2_unique m1 53 H1), (digits2_unique m2 53 H2).
  unfold fexp, SpecFloat.emin, prec, emax.
  replace (Z.min (Z.max (53 + e1 - (53 + e2) - 53) (3 - 1024 - 53)) (e1 - e2))
    with (e1 - e2 - 53) by lia.
  replace (e1 - e2 - (e1 - e2 - 53)) with 53 by lia.
  cbv iota. rewrite Z.shiftl_mul_pow2 by lia.
  set (N := Zpos m1 * 2 ^ 53).
  pose proof (Z.div_eucl_eq N (Zpos m2) ltac:(lia)) as Heq.
  pose proof (Z.mod_pos_bound N (Zpos m2) ltac:(lia)) as Hmod.
  unfold Z.modulo in Hmod.
  destruct (Z.div_eucl N (Zpos m2)) as [q r].
  assert (Hq : 2 ^ 52 <= q < 2 ^ 54).
  { unfold N in Heq. change (2 ^ 54) with (2 * 2 ^ 53). split; nia. }
  assert (Hd : exists d, (d = 53 \/ d = 54) /\ 2 ^ (d - 1) <= q < 2 ^ d).
  { destruct (Z.lt_ge_cases q (2 ^ 53)).
    - exists 53. split; [now left|]. change (2 ^ (53 - 1)) with (2 ^ 52). lia.
    - exists 54. split; [now right|]. change (2 ^ (54 - 1)) with (2 ^ 53). lia. }
  destruct Hd as (d & Hd53 & Hdq).
  destruct (binary_round_aux_located N (Zpos m2) q (e1 - e2 - 53) d
              (new_location (Zpos m2) r))
    as (mr & er & g & Hres & Hmr & Hg & Her & Hacc); try lia.
  - rewrite new_location_locOf by lia. f_equal. lia.
  - exists mr, er, g, (d - 53).
    split; [exact Hres|]. split; [exact Hmr|]. split; [exact Hg|].
    split; [lia|]. split; [lia|]. exact Hacc.
Qed.

(** The square of a normal value. *)
Lemma SFmul_self_located (m : positive) (e : Z) :
  2 ^ 52 <= Zpos m < 2 ^ 53 -> -563 <= e <= 458 ->
  exists (mp : positive) (ep g n : Z),
    SFmul prec emax (S754_finite false m e) (S754_finite false m e)
    = S754_finite false mp ep
    /\ 2 ^ 52 <= Zpos mp < 2 ^ 53
    /\ 2 ^ 52 <= g
    /\ (n = 52 \/ n = 53)
    /\ (ep = e + e + n /\ g = Zpos mp \/ ep = e + e + n + 1 /\ g = 2 * Zpos mp)
    /\ 2 * g * 2 ^ n - 2 ^ n <= 2 * (Zpos m * Zpos m) <= 2 * g * 2 ^ n + 2 ^ n.
Proof.
  intros Hm He. unfold SFmul. cbn [xorb].
  set (N := Zpos (m * m)).
  assert (EN : N = Zpos m * Zpos m) by reflexivity.
  assert (HN : 2 ^ 104 <= N < 2 ^ 106).
  { rewrite EN. change (2 ^ 104) with (2 ^ 52 * 2 ^ 52).
    change (2 ^ 106) with (2 ^ 53 * 2 ^ 53). split; nia. }
  assert (Hd : exists d, (d = 105 \/ d = 106) /\ 2 ^ (d - 1) <= N < 2 ^ d).
  { destruct (Z.lt_ge_cases N (2 ^ 105)).
    - exists 105. split; [now left|]. change (2 ^ (105 - 1)) with (2 ^ 104). lia.
    - exists 106. split; [now right|]. change (2 ^ (106 - 1)) with (2 ^ 105). lia. }
  destruct Hd as (d & Hd53 & Hdq).
  destruct (binary_round_aux_located N 1 N (e + e) d loc_Exact)
    as (mp & ep & g & Hres & Hmp & Hg & Hep & Hacc); try lia.
  - replace (N - N * 1) with 0 by ring. reflexivity.
  - exists mp, ep, g, (d - 53).
    split; [exact Hres|]. split; [exact Hmp|]. split; [exact Hg|].
    split; [lia|]. split; [lia|].
    rewrite Z.mul_1_r in Hacc. rewrite <- EN. exact Hacc.
Qed.

(** The square root of a normal value. *)
Lemma SFsqrt_located (m : positive) (e : Z) :
  2 ^ 52 <= Zpos m < 2 ^ 53 -> -1074 <= e <= 971 ->
  exists (my : positive) (ey g s e0 : Z),
    SFsqrt prec emax (S754_finite false m e) = S754_finite false my ey
    /\ 2 ^ 52 <= Zpos my < 2 ^ 53
    /\ 2 ^ 52 <= g
    /\ (s = 52 \/ s = 53)
    /\ e = 2 * e0 + s
    /\ (ey = e0 /\ g = Zpos my \/ ey = e0 + 1 /\ g = 2 * Zpos my)
    /\ (2 * g - 1) * (2 * g - 1) <= 4 * (Zpos m * 2 ^ s)
       <= (2 * g + 1) * (2 * g + 1).
Proof.
  intros Hm He. unfold SFsqrt, SFsqrt_core_binary.
  cbn [Zdigits2]. rewrite (digits2_unique m 53 Hm).
  rewrite !Z.div2_div.
  unfold fexp, SpecFloat.emin, prec, emax.
  set (e0 := (53 + e + 1) / 2 - 53).
  assert (He0 : e = 2 * e0 + 52 \/ e = 2 * e0 + 53).
  { unfold e0. pose proof (Z.div_mod (53 + e + 1) 2 ltac:(lia)) as Hdm.
    pose proof (Z.mod_pos_bound (53 + e + 1) 2 ltac:(lia)). lia. }
  replace (Z.min (Z.max e0 (3 - 1024 - 53)) (e / 2)) with e0.
  2:{ unfold e0. pose proof (Z.div_mod (53 + e + 1) 2 ltac:(lia)).
      pose proof (Z.mod_pos_bound (53 + e + 1) 2 ltac:(lia)).
      pose proof (Z.div_mod e 2 ltac:(lia)).
      pose proof (Z.mod_pos_bound e 2 ltac:(lia)). lia. }
  set (s := e - 2 * e0).
  assert (Hs : s = 52 \/ s = 53) by (unfold s; lia).
  assert (Hm' : match s with
                | 0 => Zpos m
                | Zpos _ => Z.shiftl (Zpos m) s
                | Zneg _ => 0
                end = Zpos m * 2 ^ s).
  { destruct Hs as [-> | ->]; now rewrite Z.shiftl_mul_pow2 by lia. }
  fold s. rewrite Hm'. set (N := Zpos m * 2 ^ s).
  assert (HN : 2 ^ 104 <= N < 2 ^ 106).
  { unfold N. destruct Hs as [-> | ->].
    - change (2 ^ 104) with (2 ^ 52 * 2 ^ 52).
      change (2 ^ 106) with (2 ^ 54 * 2 ^ 52). split; nia.
    - change (2 ^ 104) with (2 ^ 51 * 2 ^ 53).
      change (2 ^ 106) with (2 ^ 53 * 2 ^ 53). split; nia. }
  pose proof (Z.sqrtrem_spec N ltac:(lia)) as Hsq.
  destruct (Z.sqrtrem N) as [q r]. destruct Hsq as [EN Hr].
  assert (Hq : 2 ^ 52 <= q < 2 ^ 53).
  { change (2 ^ 104) with (2 ^ 52 * 2 ^ 52) in HN.
    change (2 ^ 106) with (2 ^ 53 * 2 ^ 53) in HN.
    assert (0 <= q) by nia. split; nia. }
  (* a rational with the same location as the root *)
  set (l := if r =? 0 then loc_Exact
            else loc_Inexact (if r <=? q then Lt else Gt)).
  assert (Hproxy : exists P D,
             0 < D /\ q * D <= P < (q + 1) * D /\ l = locOf (P - q * D) D
             /\ (D = 4)
             /\ (r = 0 /\ P = 4 * q
                 \/ 0 < r <= q /\ P = 4 * q + 1
                 \/ q < r /\ P = 4 * q + 3)).
  { unfold l. destruct (Z.eqb_spec r 0) as [E|E].
    - exists (4 * q), 4.
      split; [lia|]. split; [lia|].
      split; [replace (4 * q - q * 4) with 0 by ring; reflexivity|].
      split; [reflexivity|]. left. lia.
    - destruct (Z.leb_spec r q) as [L|L].
      + exists (4 * q + 1), 4.
        split; [lia|]. split; [lia|].
        split; [replace (4 * q + 1 - q * 4) with 1 by ring; reflexivity|].
        split; [reflexivity|]. right; left. lia.
      + exists (4 * q + 3), 4.
        split; [lia|]. split; [lia|].
        split; [replace (4 * q + 3 - q * 4) with 3 by ring; reflexivity|].
        split; [reflexivity|]. right; right. lia. }
  destruct Hproxy as (P & D & HD & HP & Hl & ED & Hcase).
  destruct (binary_round_aux_located P D q e0 53 l)
    as (my & ey & g & Hres & Hmy & Hg & Hey & Hacc); try lia.
  { exact Hl. }
  exists my, ey, g, s, e0.
  split; [exact Hres|]. split; [exact Hmy|]. split; [exact Hg|].
  split; [exact Hs|]. split; [unfold s; lia|].
  split; [replace (e0 + (53 - 53)) with e0 in Hey by lia; exact Hey|].
  change (2 ^ (53 - 53)) with 1 in Hacc. rewrite Z.mul_1_l in Hacc.
  subst D. fold N. rewrite EN.
  destruct Hcase as [[Er EP] | [[Hr1 EP] | [Hr1 EP]]]; subst P.
  - assert (g = q) by lia. subst g. split; nia.
  - assert (g = q) by lia. subst g. split; nia.
  - assert (g = q + 1) by lia. subst g. split; nia.
Qed.

Local Open Scope R_scope.

(** Three roundings, each within [u = 2 ^ -53] of its operand in relative
    terms: the root [y] of [a], the product [p] of [y] with itself, and
    the quotient [rr / K] of [a] by [p]. *)
Lemma three_roundings (a y p rr K u : R) :
  u = / 9007199254740992 ->
  4503599627370496 <= y ->
  (2 * y - 1) * (2 * y - 1) <= 4 * a <= (2 * y + 1) * (2 * y + 1) ->
  0 < p -> 0 < K -> 0 < rr ->
  p * (1 - u) <= y * y <= p * (1 + u) ->
  rr * p * (1 - u) <= a * K <= rr * p * (1 + u) ->
  (1 - 5 * u) * K < rr < (1 + 6 * u) * K.
Proof.
  intros Hu Hy Ha Hp HK Hrr Hyp Hdiv.
  assert (Hu0 : 0 < u) by (rewrite Hu; lra).
  assert (Hu1 : u < / 1000) by (rewrite Hu; lra).
  assert (Huy : / 2 <= u * y).
  { rewrite Hu. lra. }
  (* a between y^2 (1-u)^2 and y^2 (1+u)^2 *)
  assert (Ha1 : (y * (1 - u)) * (y * (1 - u)) <= a).
  { assert (0 <= y * (1 - u) <= y - / 2) by nra. nra. }
  assert (Ha2 : a <= (y * (1 + u)) * (y * (1 + u))).
  { assert (0 <= y + / 2 <= y * (1 + u)) by nra. nra. }
  assert (Hap1 : p * ((1 - u) * (1 - u) * (1 - u)) <= a).
  { assert (p * (1 - u) * ((1 - u) * (1 - u)) <= y * y * ((1 - u) * (1 - u))).
    { apply Rmult_le_compat_r; [nra | lra]. }
    lra. }
  assert (Hap2 : a <= p * ((1 + u) * (1 + u) * (1 + u))).
  { assert (y * y * ((1 + u) * (1 + u)) <= p * (1 + u) * ((1 + u) * (1 + u))).
    { apply Rmult_le_compat_r; [nra | lra]. }
    lra. }
  (* divide by p *)
  assert (H1 : rr * (1 - u) <= (1 + u) * (1 + u) * (1 + u) * K).
  { apply Rmult_le_reg_l with p; [assumption|].
    assert (a * K <= p * ((1 + u) * (1 + u) * (1 + u)) * K)
      by (apply Rmult_le_compat_r; lra).
    lra. }
  assert (H2 : (1 - u) * (1 - u) * (1 - u) * K <= rr * (1 + u)).
  { apply Rmult_le_reg_l with p; [assumption|].
    assert (p * ((1 - u) * (1 - u) * (1 - u)) * K <= a * K)
      by (apply Rmult_le_compat_r; lra).
    lra. }
  split.
  - (* (1 - 5u) (1 + u) < (1-u)^3 *)
    assert (Hc : (1 - 5 * u) * (1 + u) < (1 - u) * (1 - u) * (1 - u)) by nra.
    apply Rmult_lt_reg_r with (1 + u); [lra|].
    assert ((1 - 5 * u) * (1 + u) * K < (1 - u) * (1 - u) * (1 - u) * K)
      by (apply Rmult_lt_compat_r; assumption).
    lra.
  - assert (Hc : (1 + u) * (1 + u) * (1 + u) < (1 + 6 * u) * (1 - u)) by nra.
    apply Rmult_lt_reg_r with (1 - u); [lra|].
    assert ((1 + u) * (1 + u) * (1 + u) * K < (1 + 6 * u) * (1 - u) * K)
      by (apply Rmult_lt_compat_r; assumption).
    lra.
Qed.

Local Close Scope R_scope.

Lemma three_roundings_Z (a y p rr K : Z) :
  4503599627370496 <= y ->
  (2 * y - 1) * (2 * y - 1) <= 4 * a <= (2 * y + 1) * (2 * y + 1) ->
  0 < p -> 0 < K -> 0 < rr ->
  9007199254740992 * (y * y - p) <= p ->
  9007199254740992 * (p - y * y) <= p ->
  9007199254740992 * (a * K - rr * p) <= rr * p ->
  9007199254740992 * (rr * p - a * K) <= rr * p ->
  9007199254740987 * K < 9007199254740992 * rr
  /\ 9007199254740992 * rr < 9007199254740998 * K.
Proof.
  intros Hy [Ha1 Ha2] Hp HK Hrr Hp1 Hp2 Hd1 Hd2.
  apply IZR_le in Hy, Ha1, Ha2, Hp1, Hp2, Hd1, Hd2.
  apply IZR_lt in Hp, HK, Hrr.
  rewrite ?mult_IZR, ?minus_IZR, ?plus_IZR, ?mult_IZR, ?minus_IZR, ?plus_IZR,
    ?mult_IZR in *.
  assert (Hyp : (IZR p * (1 - / 9007199254740992) <= IZR y * IZR y
                 <= IZR p * (1 + / 9007199254740992))%R) by (split; lra).
  assert (Hdiv : (IZR rr * IZR p * (1 - / 9007199254740992) <= IZR a * IZR K
                  <= IZR rr * IZR p * (1 + / 9007199254740992))%R)
    by (split; lra).
  assert (Ha : ((2 * IZR y - 1) * (2 * IZR y - 1) <= 4 * IZR a
                <= (2 * IZR y + 1) * (2 * IZR y + 1))%R) by (split; lra).
  destruct (three_roundings (IZR a) (IZR y) (IZR p) (IZR rr) (IZR K)
                 (/ 9007199254740992)%R eq_refl Hy Ha Hp HK Hrr Hyp Hdiv)
    as [L U].
  split; apply lt_IZR; rewrite !mult_IZR; lra.
Qed.

(** The quotient of a normal value by the rounded square of its rounded
    root is 1 to within two units in the last place. *)
Lemma self_quotient (mx : positive) (ex : Z) :
  2 ^ 52 <= Zpos mx < 2 ^ 53 -> -1074 <= ex <= 967 ->
  exists (mr : positive) (er : Z),
    SFdiv prec emax (S754_finite false mx ex)
          (SFmul prec emax (SFsqrt prec emax (S754_finite false mx ex))
                 (SFsqrt prec emax (S754_finite false mx ex)))
    = S754_finite false mr er
    /\ (er = -52 /\ 2 ^ 52 <= Zpos mr <= 2 ^ 52 + 2
        \/ er = -53 /\ 2 ^ 53 - 4 <= Zpos mr < 2 ^ 53).
Proof.
  intros Hmx Hex.
  destruct (SFsqrt_located mx ex Hmx ltac:(lia))
    as (my & ey & gy & s & e0 & Hsq & Hmy & Hgy & Hs & Eex & Hcy & Hsacc).
  rewrite Hsq.
  assert (Hey : -563 <= ey <= 458) by lia.
  destruct (SFmul_self_located my ey Hmy Hey)
    as (mp & ep & gp & n & Hmul & Hmp & Hgp & Hn & Hcp & Hmacc).
  rewrite Hmul.
  assert (Hep : -1021 <= ex - ep <= 1021) by lia.
  destruct (SFdiv_located mx mp ex ep Hmx Hmp Hep)
    as (mr & er & gr & t & Hdiv & Hmr & Hgr & Ht & Hcr & Hdacc).
  exists mr, er. split; [exact Hdiv|].
  clear Hsq Hmul Hdiv Hey Hep.
  change (2 ^ 52) with 4503599627370496 in *.
  change (2 ^ 53) with 9007199254740992 in *.
  assert (Hgm : 4503599627370496 * Zpos mp <= gr * Zpos mp) by (clear - Hgr; nia).
  set (X := Zpos mx) in *. set (Y := Zpos my) in *.
  set (P := Zpos mp) in *. set (Q := Zpos mr) in *.
  assert (HX : 0 < X) by (unfold X; lia).
  assert (HY : 0 < Y) by (unfold Y; lia).
  assert (HP : 0 < P) by (unfold P; lia).
  assert (HQ : 0 < Q) by (unfold Q; lia).
  clearbody X Y P Q.
  assert (Hc : exists c, (c = 1 \/ c = 2) /\ gy = c * Y /\ ey = e0 + c - 1).
  { destruct Hcy as [[-> ->] | [-> ->]]; [exists 1 | exists 2]; lia. }
  assert (Hd : exists d, (d = 1 \/ d = 2) /\ gp = d * P /\ ep = ey + ey + n + d - 1).
  { destruct Hcp as [[-> ->] | [-> ->]]; [exists 1 | exists 2]; lia. }
  assert (Hf : exists f, (f = 1 \/ f = 2) /\ gr = f * Q /\ er = ex - ep - 53 + t + f - 1).
  { destruct Hcr as [[-> ->] | [-> ->]]; [exists 1 | exists 2]; lia. }
  clear Hcy Hcp Hcr.
  destruct Hc as (c & Hc & -> & ->), Hd as (d & Hd & -> & ->),
           Hf as (f & Hf & -> & ->).
  subst ex.
  pose proof (three_roundings_Z (X * 2 ^ s) (c * Y) (d * P * 2 ^ n * (c * c))
                     (f * Q * 2 ^ t)
                     (2 ^ (53 - s) * 2 ^ n * (c * c) * d)) as Hcore.
  destruct Hs as [-> | ->], Hn as [-> | ->], Ht as [-> | ->],
           Hc as [-> | ->], Hd as [-> | ->], Hf as [-> | ->];
    (destruct Hcore as [L U]; [lia | lia | lia | lia | lia | lia | lia | lia | lia |];
     lia).
Qed.

Local Close Scope Z_scope.
Set Implicit Arguments.

Lemma not_nan_spec (x : float) : x <> nan -> Prim2SF x <> S754_nan.
Proof. intros H E. apply H. now apply Prim2SF_inj. Qed.

Lemma ltb_ord (x y : float) :
  x <> nan -> y <> nan -> (x <? y) = (ord x <? ord y)%Z.
Proof.
  intros Hx Hy. rewrite ltb_spec. unfold SFltb, ord.
  rewrite SFcompare_rank by auto using Prim2SF_valid, not_nan_spec.
  unfold Z.ltb. now destruct (_ ?= _)%Z.
Qed.

Lemma leb_ord (x y : float) :
  x <> nan -> y <> nan -> (x <=? y) = (ord x <=? ord y)%Z.
Proof.
  intros Hx Hy. rewrite leb_spec. unfold SFleb, ord.
  rewrite SFcompare_rank by auto using Prim2SF_valid, not_nan_spec.
  unfold Z.leb. now destruct (_ ?= _)%Z.
Qed.

Lemma leb_true_not_nan (x y : float) :
  (x <=? y) = true -> x <> nan /\ y <> nan.
Proof.
  rewrite leb_spec. intros H.
  split; intros ->; change (Prim2SF nan) with S754_nan in H;
    unfold SFleb in H; [|destruct (Prim2SF x)]; discriminate.
Qed.

Lemma ltb_true_not_nan (x y : float) :
  (x <? y) = true -> x <> nan /\ y <> nan.
Proof.
  rewrite ltb_spec. intros H.
  split; intros ->; change (Prim2SF nan) with S754_nan in H;
    unfold SFltb in H; [|destruct (Prim2SF x)]; discriminate.
Qed.

(** A normal value below [2 ^ 1020], divided by the product of its square
    root with itself, gives 1 to within [2 ^ -51]. *)
Lemma self_quotient_near_one (S : float) :
  (0x1p-1022 <=? S) = true -> (S <? 0x1p1020) = true ->
  (0x1.ffffffffffffcp-1 <=? S / (sqrt S * sqrt S)) = true
  /\ (S / (sqrt S * sqrt S) <=? 0x1.0000000000002p+0) = true.
Proof.
  intros Hlo Hhi.
  destruct (leb_true_not_nan Hlo) as [Nlo NS].
  destruct (ltb_true_not_nan Hhi) as [_ Nhi].
  rewrite leb_ord in Hlo by assumption. rewrite ltb_ord in Hhi by assumption.
  apply Z.leb_le in Hlo. apply Z.ltb_lt in Hhi. unfold ord in Hlo, Hhi.
  change (Prim2SF 0x1p-1022)
    with (S754_finite false 4503599627370496 (-1074)) in Hlo.
  change (Prim2SF 0x1p1020)
    with (S754_finite false 4503599627370496 968) in Hhi.
  pose proof (Prim2SF_valid S) as Hvalid.
  assert (HS : exists m e,
             Prim2SF S = S754_finite false m e
             /\ (2 ^ 52 <= Zpos m < 2 ^ 53)%Z /\ (-1074 <= e <= 967)%Z).
  { assert (Hinf : (0 < 2 ^ 2098)%Z) by (apply Z.pow_pos_nonneg; lia).
    destruct (Prim2SF S) as [s|s| |s m e] eqn:E.
    - exfalso. unfold rank, cond_Zopp in Hlo. simpl in Hlo. lia.
    - exfalso. destruct s; unfold rank, cond_Zopp in Hlo, Hhi.
      + simpl in Hlo. lia.
      + change (968 + 1074)%Z with 2042%Z in Hhi.
        assert ((4503599627370496 * 2 ^ 2042 < 2 ^ 2098)%Z)
          by (change (4503599627370496)%Z with (2 ^ 52)%Z;
              rewrite <- Z.pow_add_r by lia; apply Z.pow_lt_mono_r; lia).
        lia.
    - exfalso. apply NS. now apply Prim2SF_inj.
    - simpl in Hvalid. pose proof (rank_finite_bounds m e Hvalid) as Hr.
      destruct (bounded_inv m e Hvalid) as (He & Hd & Hnorm).
      pose proof (digits2_bounds m) as Hm.
      unfold rank, cond_Zopp in Hlo, Hhi.
      change (-1074 + 1074)%Z with 0%Z in Hlo.
      change (968 + 1074)%Z with 2042%Z in Hhi.
      change (2 ^ 0)%Z with 1%Z in Hlo.
      destruct s; [exfalso; lia|].
      assert (Hlt : (Zpos m < 2 ^ 53)%Z).
      { apply Z.lt_le_trans with (1 := proj2 Hm). apply Z.pow_le_mono_r; lia. }
      assert (Hge : (2 ^ 52 <= Zpos m)%Z).
      { destruct (Z.eq_dec e (-1074)) as [-> | Hne].
        - change (-1074 + 1074)%Z with 0%Z in Hlo.
          change (2 ^ 0)%Z with 1%Z in Hlo. lia.
        - rewrite Hnorm in Hm by lia. change (2 ^ (53 - 1))%Z with (2 ^ 52)%Z in Hm.
          lia. }
      exists m, e. split; [reflexivity|]. split; [lia|]. split; [lia|].
      destruct (Z.le_gt_cases e 967) as [Hle | Hgt]; [assumption|exfalso].
      assert (Hp : (2 ^ 2042 <= 2 ^ (e + 1074))%Z)
        by (apply Z.pow_le_mono_r; lia).
      change (4503599627370496)%Z with (2 ^ 52)%Z in Hhi.
      assert (Hp0 : (0 < 2 ^ 2042)%Z) by (apply Z.pow_pos_nonneg; lia).
      nia. }
  destruct HS as (m & e & HS & Hm & He).
  destruct (self_quotient m e Hm He) as (mr & er & Hq & Hcase).
  assert (HP : Prim2SF (S / (sqrt S * sqrt S)) = S754_finite false mr er).
  { rewrite div_spec, mul_spec, sqrt_spec, HS. exact Hq. }
  assert (Nr : S / (sqrt S * sqrt S) <> nan).
  { intros E. rewrite E in HP. discriminate. }
  assert (N1 : 0x1.ffffffffffffcp-1 <> nan)
    by (intros E; apply (f_equal Prim2SF) in E; discriminate).
  assert (N2 : 0x1.0000000000002p+0 <> nan)
    by (intros E; apply (f_equal Prim2SF) in E; discriminate).
  rewrite !leb_ord by assumption. unfold ord. rewrite HP.
  change (Prim2SF 0x1.ffffffffffffcp-1)
    with (S754_finite false 9007199254740988 (-53)).
  change (Prim2SF 0x1.0000000000002p+0)
    with (S754_finite false 4503599627370498 (-52)).
  unfold rank, cond_Zopp.
  change (2 ^ 52)%Z with 4503599627370496%Z in Hcase.
  change (2 ^ 53)%Z with 9007199254740992%Z in Hcase.
  assert (Hp : (2 ^ 1022 = 2 * 2 ^ 1021)%Z) by reflexivity.
  assert (Hp0 : (0 < 2 ^ 1021)%Z) by (apply Z.pow_pos_nonneg; lia).
  destruct Hcase as [[-> Hmr] | [-> Hmr]].
  - change (-52 + 1074)%Z with 1022%Z. change (-53 + 1074)%Z with 1021%Z.
    rewrite Hp. split; apply Z.leb_le; nia.
  - change (-52 + 1074)%Z with 1022%Z. change (-53 + 1074)%Z with 1021%Z.
    rewrite Hp. split; apply Z.leb_le; nia.
Qed.



Lemma sub_nan_l (x : float) : nan - x = nan.
Proof. apply Prim2SF_inj. rewrite sub_spec. reflexivity. Qed.

Lemma sub_nan_r (x : float) : x - nan = nan.
Proof.
  apply Prim2SF_inj. rewrite sub_spec. change (Prim2SF nan) with S754_nan.
  now destruct (Prim2SF x).
Qed.

Lemma ltb_nan_l (x : float) : (nan <? x) = false.
Proof. rewrite ltb_spec. reflexivity. Qed.

Lemma ltb_nan_r (x : float) : (x <? nan) = false.
Proof.
  rewrite ltb_spec. change (Prim2SF nan) with S754_nan.
  unfold SFltb. now destruct (Prim2SF x).
Qed.

End Binary64Facts.

(** *** Cosine similarity: dot product, magnitudes, symmetry *)

Lemma cosineSimilarity_equal_length (vecA vecB : list float) :
  length vecA = length vecB ->
  cosineSimilarity vecA vecB
  = Normal (dotOf vecA vecB / (sqrt (sumSquares vecA) * sqrt (sumSquares vecB))).
Proof.
  intros H. unfold cosineSimilarity. apply Nat.eqb_eq in H. now rewrite H.
Qed.

(** The indexed reduction walks the two vectors side by side. *)
Lemma dot_from_combine (vecA : list float) :
  forall (vecB done : list float) (acc : float),
    length vecA <= length vecB ->
    reduce_from (fun sum a i => sum + a * at_ (done ++ vecB) i) vecA (length done) acc
    = fold_left (fun sum p => sum + fst p * snd p) (combine vecA vecB) acc.
Proof.
  induction vecA as [|a vecA IH]; intros vecB done acc Hlen; [reflexivity|].
  destruct vecB as [|b vecB]; [simpl in Hlen; lia|].
  simpl. unfold at_ at 2. rewrite nth_middle.
  specialize (IH vecB (done ++ [b]) (acc + a * b)).
  rewrite <- app_assoc, length_app, Nat.add_comm in IH. simpl in IH.
  apply IH. simpl in Hlen. lia.
Qed.

Lemma dotOf_combine (vecA vecB : list float) :
  length vecA = length vecB ->
  dotOf vecA vecB
  = fold_left (fun sum p => sum + fst p * snd p) (combine vecA vecB) 0.
Proof.
  intros H. unfold dotOf, reduce.
  apply (dot_from_combine vecA vecB [] 0). lia.
Qed.

Lemma sumSquares_fold (vec : list float) :
  sumSquares vec = fold_left (fun sum a => sum + a * a) vec 0.
Proof.
  unfold sumSquares, reduce. generalize 0%nat, 0.
  induction vec as [|a vec IH]; intros i acc; simpl; [reflexivity | apply IH].
Qed.

Lemma fold_combine_swap (vecA : list float) :
  forall (vecB : list float) (acc : float),
    fold_left (fun sum p => sum + fst p * snd p) (combine vecA vecB) acc
    = fold_left (fun sum p => sum + fst p * snd p) (combine vecB vecA) acc.
Proof.
  induction vecA as [|a vecA IH]; intros [|b vecB] acc; simpl; try reflexivity.
  rewrite (Binary64Facts.mul_comm a b). apply IH.
Qed.

Lemma dotOf_comm (vecA vecB : list float) :
  length vecA = length vecB -> dotOf vecA vecB = dotOf vecB vecA.
Proof.
  intros H. rewrite !dotOf_combine by congruence. apply fold_combine_swap.
Qed.

(** The dot product of a vector with itself is its sum of squares. *)
Lemma dotOf_self (vec : list float) : dotOf vec vec = sumSquares vec.
Proof.
  rewrite dotOf_combine, sumSquares_fold by reflexivity. generalize 0.
  induction vec as [|a vec IH]; intros acc; simpl; [reflexivity | apply IH].
Qed.

(** [cosineSimilarity] does not depend on the order of its arguments: not
    in the value it returns, and not in whether it throws. *)
Lemma cosineSimilarity_comm (vecA vecB : list float) :
  cosineSimilarity vecA vecB = cosineSimilarity vecB vecA.
Proof.
  destruct (Nat.eq_dec (length vecA) (length vecB)) as [H | H].
  - rewrite !cosineSimilarity_equal_length by congruence.
    now rewrite dotOf_comm, Binary64Facts.mul_comm.
  - unfold cosineSimilarity.
    assert (H' : length vecB <> length vecA) by congruence.
    apply Nat.eqb_neq in H, H'. now rewrite H, H'.
Qed.

(** With a zero vector on the left, the dot product is [+0] or NaN and the
    left magnitude is [+0]. *)
Lemma dot_zeroVector (vecA : list float) :
  forall (vecB : list float) (acc : float),
    zeroVector vecA = true ->
    acc = 0 \/ acc = nan ->
    let d := fold_left (fun sum p => sum + fst p * snd p) (combine vecA vecB) acc in
    d = 0 \/ d = nan.
Proof.
  induction vecA as [|a vecA IH]; intros [|b vecB] acc Hz Hacc; simpl; auto.
  simpl in Hz. apply andb_true_iff in Hz. destruct Hz as [Ha Hz].
  apply IH; [assumption|].
  apply Binary64Facts.add_zero_or_nan; [assumption|].
  apply Binary64Facts.mul_zero_l. now apply Binary64Facts.eqb_zero.
Qed.

Lemma sumSquares_zeroVector (vec : list float) :
  zeroVector vec = true -> sumSquares vec = 0.
Proof.
  rewrite sumSquares_fold.
  induction vec as [|a vec IH]; intros Hz; [reflexivity|].
  simpl in Hz. apply andb_true_iff in Hz. destruct Hz as [Ha Hz].
  simpl. rewrite Binary64Facts.mul_self_zero by now apply Binary64Facts.eqb_zero.
  now apply IH.
Qed.

(** The similarity of a zero vector with any vector of its length is NaN. *)
Lemma cosineSimilarity_zero_l (vecA vecB : list float) :
  length vecA = length vecB ->
  zeroVector vecA = true ->
  cosineSimilarity vecA vecB = Normal nan.
Proof.
  intros Hlen Hz. rewrite cosineSimilarity_equal_length by assumption.
  f_equal. apply Binary64Facts.div_zero_or_nan.
  - rewrite dotOf_combine by assumption. now apply dot_zeroVector; auto.
  - rewrite (sumSquares_zeroVector _ Hz).
    apply Binary64Facts.mul_zero_l. exists false. reflexivity.
Qed.

(** *** The ranking of the scored chunks *)

Lemma place_perm {A : Type} (x : nat * A) (l : list (nat * A)) :
  Permutation (place x l) (x :: l).
Proof.
  induction l as [|y l IH]; simpl; [reflexivity|].
  destruct (fst y <? fst x)%nat; [|reflexivity].
  rewrite IH. apply perm_swap.
Qed.

Lemma map_snd_combine {A B : Type} (l : list A) :
  forall l' : list B,
    (length l' <= length l)%nat -> List.map snd (combine l l') = l'.
Proof.
  induction l as [|a l IH]; intros [|b l'] H; simpl in *;
    try reflexivity; [lia|].
  f_equal. apply IH. lia.
Qed.

(** Whatever ranks the engine gives, the elements of the array come out,
    each as often as it was in. *)
Lemma arrange_perm {A : Type} (ranks : list nat) (arr : list A) :
  Permutation (arrange ranks arr) arr.
Proof.
  unfold arrange.
  set (ranked := combine (ranks ++ repeat 0%nat (length arr)) arr).
  assert (H : Permutation (fold_right place [] ranked) ranked).
  { induction ranked as [|x l IH]; simpl; [reflexivity|].
    rewrite place_perm. now constructor. }
  rewrite H. unfold ranked. rewrite map_snd_combine; [reflexivity|].
  rewrite length_app, repeat_length. lia.
Qed.

Section SortFacts.
Variable A : Type.
Variable cmp : A -> A -> float.
Variable engineOrder : list (list float) -> list nat.

Lemma insert_perm (x : A) (l : list A) : Permutation (insert cmp x l) (x :: l).
Proof.
  induction l as [|y l IH]; simpl; [reflexivity|].
  destruct (putsSecondFirst cmp x y); [|reflexivity].
  rewrite IH. apply perm_swap.
Qed.

Lemma stableSort_perm (l : list A) : Permutation (stableSort cmp l) l.
Proof.
  induction l as [|x l IH]; simpl; [reflexivity|].
  rewrite insert_perm. now constructor.
Qed.

(** Under every engine the sorted array has the elements of the array. *)
Lemma sort_perm (l : list A) : Permutation (sort cmp engineOrder l) l.
Proof.
  unfold sort. destruct (consistent cmp l);
    [apply stableSort_perm | apply arrange_perm].
Qed.


(** On a consistent comparator the engine has no say. *)
Lemma sort_consistent (l : list A) :
  consistent cmp l = true -> sort cmp engineOrder l = stableSort cmp l.
Proof. intros H. unfold sort. now rewrite H. Qed.

Lemma consistent_intro (l : list A) :
  (forall a b c, In a l -> In b l -> In c l -> consistentAt cmp a b c = true) ->
  consistent cmp l = true.
Proof.
  intros H. unfold consistent.
  apply forallb_forall. intros a Ha.
  apply forallb_forall. intros b Hb.
  apply forallb_forall. intros c Hc. now apply H.
Qed.

Lemma stableSort_all_equal (l : list A) :
  (forall x y, In x l -> In y l -> putsSecondFirst cmp x y = false) ->
  stableSort cmp l = l.
Proof.
  induction l as [|x l IH]; intros H; simpl; [reflexivity|].
  rewrite IH by (intros; apply H; now right).
  destruct l as [|y l]; [reflexivity|]. simpl.
  rewrite H; [reflexivity | now left | right; now left].
Qed.

(** When the comparator calls every two elements equal (zero or NaN
    throughout), it is consistent and the array stays as it is. *)
Lemma sort_all_equal (l : list A) :
  (forall x y, In x l -> In y l -> sortCompare cmp x y = Eq) ->
  sort cmp engineOrder l = l.
Proof.
  intros H. rewrite sort_consistent.
  - apply stableSort_all_equal. intros x y Hx Hy.
    specialize (H x y Hx Hy). unfold sortCompare in H. unfold putsSecondFirst.
    destruct (0 <? cmp x y)%float; [discriminate | reflexivity].
  - apply consistent_intro. intros a b c Ha Hb Hc.
    unfold consistentAt, answers_.
    now rewrite !H by assumption.
Qed.
End SortFacts.






Lemma noNaN_insert (x : ScoredChunk) (l : list ScoredChunk) :
  score x <> nan -> noNaN l -> noNaN (insert byScoreDesc x l).
Proof.
  intros Hx Hl. unfold noNaN.
  apply (Permutation_Forall (x := x :: l)); [|now constructor].
  symmetry. apply insert_perm.
Qed.










(** *** C1: the confidence gate *)

Lemma scoreAll_equal_lengths (q : list float) (store : list Chunk) :
  (forall c, In c store -> length (embedding c) = length q) ->
  scoreAll q store
  = Normal (List.map (fun c => mkScored c (cosineValue q (embedding c))) store).
Proof.
  induction store as [|c store IH]; intros H; [reflexivity|].
  simpl. rewrite cosineSimilarity_equal_length by (symmetry; apply H; now left).
  rewrite IH by (intros; apply H; now right). reflexivity.
Qed.

Lemma slice0_nonneg {A : Type} (k : Z) (arr : list A) :
  (0 <= k)%Z -> slice0 k arr = firstn (Z.to_nat k) arr.
Proof. intros H. unfold slice0. apply Z.ltb_ge in H. now rewrite H. Qed.




Lemma findRelevantChunks_gated (w : World) (question : jsString) (topK : Z)
      (threshold : float) (s : State) (q : list float)
      (scored : list ScoredChunk) :
  embedQuery w question = Normal q ->
  scoreAll q (vectorStore s) = Normal scored ->
  fst (findRelevantChunks w question topK threshold s)
  = Normal (if topBelow (topResultsOf w topK scored) threshold
            then [] else topResultsOf w topK scored).
Proof. intros Hq Hs. now rewrite findRelevantChunks_run, Hq, Hs. Qed.



(** A NaN score ranked first: asked for the one best chunk, the operation
    returns the chunk whose score is NaN and not the chunk along the
    query. *)
Example findRelevantChunks_ranks_nan_first :
  fst (findRelevantChunks Sample.answering Sample.question 1 default_threshold
                          Sample.storeWithZero)
  = Normal [ mkScored (mkChunk [0; 0] (lit "Shipping takes a week.")
                               (lit "knowledge.txt")) nan ].
Proof. vm_compute. reflexivity. Qed.

(** Where the comparator is not consistent the engine decides.  In Node,
    with the chunks [a], [b], [c], [d] of scores about 0.11, 0.24, NaN and
    1 in the store, the ranking is [d], [b], [a], [c] and the three first
    are returned; with [a], [c], [d] in the store the array is one run as
    it stands, [a] stays first, and nothing is returned although [d]
    scores 1. *)
Example findRelevantChunks_in_node :
  let a := mkChunk [1; 9] (lit "a") (lit "knowledge.txt") in
  let b := mkChunk [1; 4] (lit "b") (lit "knowledge.txt") in
  let c := mkChunk [0; 0] (lit "c") (lit "knowledge.txt") in
  let d := mkChunk [1; 0] (lit "d") (lit "knowledge.txt") in
  List.map item
           (sort byScoreDesc V8.order
                 (List.map (fun x => mkScored x (cosineValue [1; 0] (embedding x)))
                           [a; b; c; d]))
  = [d; b; a; c]
  /\ (exists result,
         fst (findRelevantChunks Sample.answering (lit "tx blocked")
                                 default_topK default_threshold
                                 (mkState [a; b; c; d] []))
         = Normal result
         /\ List.map item result = [d; b; a])
  /\ fst (findRelevantChunks Sample.answering (lit "tx blocked")
                             default_topK default_threshold
                             (mkState [a; c; d] []))
     = Normal []
  /\ cosineValue [1; 0] (embedding d) = 1.
Proof.
  intros a b c d. split; [vm_compute; reflexivity|].
  split; [eexists; split; vm_compute; reflexivity|].
  split; vm_compute; reflexivity.
Qed.



(** *** C8: symmetry and self-similarity *)

(** C8 as stated fails in its second half: the vector [1, 1] is not zero,
    and its similarity with itself is 0.9999999999999998, not 1.0; that of
    [0.75, 0.5] is 1.0000000000000002. *)
Lemma cosineSimilarity_self_counterexample :
  cosineSimilarity [1; 1] [1; 1] = Normal 0x1.ffffffffffffep-1
  /\ (0x1.ffffffffffffep-1 =? 1) = false
  /\ zeroVector [1; 1] = false
  /\ cosineSimilarity [0x1.8p-1; 0x1p-1] [0x1.8p-1; 0x1p-1]
     = Normal 0x1.0000000000001p+0.
Proof. vm_compute. repeat split. Qed.

(** Outside the range of C8's amended claim: when the squares overflow or
    underflow, the similarity of a vector with itself is NaN. *)
Example cosineSimilarity_self_out_of_range :
  cosineSimilarity [0x1p600] [0x1p600] = Normal nan
  /\ sumSquares [0x1p600] = infinity
  /\ cosineSimilarity [0x1p-600] [0x1p-600] = Normal nan
  /\ sumSquares [0x1p-600] = 0.
Proof. vm_compute. repeat split. Qed.

(** C8, amended.  [cosineSimilarity(a, b)] and [cosineSimilarity(b, a)]
    are the same outcome for all vectors, and when the value is not NaN the
    two are equal under [===].  For every vector [a] whose sum of squares,
    as the code computes it, is a normal number below [2 ^ 1020],
    [cosineSimilarity(a, a)] is 1.0 up to rounding: it lies within
    [2 ^ -51] of 1.0.  It is exactly 1.0 for [3, 4]. *)
Theorem cosineSimilarity_symmetric :
  (forall vecA vecB : list float,
      cosineSimilarity vecA vecB = cosineSimilarity vecB vecA)
  /\ (forall (vecA vecB : list float) (v v' : float),
         cosineSimilarity vecA vecB = Normal v ->
         cosineSimilarity vecB vecA = Normal v' ->
         v <> nan ->
         (v =? v') = true)
  /\ (forall vec : list float,
         (0x1p-1022 <=? sumSquares vec) = true ->
         (sumSquares vec <? 0x1p1020) = true ->
         exists v, cosineSimilarity vec vec = Normal v /\ nearOne v)
  /\ cosineSimilarity [3; 4] [3; 4] = Normal 1.
Proof.
  split; [exact cosineSimilarity_comm|].
  split.
  { intros vecA vecB v v' Hab Hba Hv.
    rewrite cosineSimilarity_comm, Hba in Hab. injection Hab as ->.
    now apply Binary64Facts.eqb_refl. }
  split; [|reflexivity].
  intros vec Hlo Hhi.
  exists (sumSquares vec / (sqrt (sumSquares vec) * sqrt (sumSquares vec))).
  split.
  - rewrite cosineSimilarity_equal_length by reflexivity.
    now rewrite dotOf_self.
  - exact (Binary64Facts.self_quotient_near_one Hlo Hhi).
Qed.

(** The vector of the counterexample, whose similarity with itself is not
    1.0, and the two orders of a pair. *)
Lemma cosineSimilarity_symmetric_witness :
  cosineSimilarity [0x1.8p-1; 0x1p-1] [1; 0]
  = cosineSimilarity [1; 0] [0x1.8p-1; 0x1p-1]
  /\ exists v, cosineSimilarity [1; 1] [1; 1] = Normal v /\ nearOne v.
Proof.
  split.
  - apply (proj1 cosineSimilarity_symmetric).
  - apply (proj1 (proj2 (proj2 cosineSimilarity_symmetric))); reflexivity.
Defined.

(** *** C10: NaN scores and the gate *)

Lemma cosineSimilarity_zero (vecA vecB : list float) :
  length vecA = length vecB ->
  zeroVector vecA = true \/ zeroVector vecB = true ->
  cosineSimilarity vecA vecB = Normal nan.
Proof.
  intros Hlen [Hz | Hz].
  - now apply cosineSimilarity_zero_l.
  - rewrite cosineSimilarity_comm. now apply cosineSimilarity_zero_l.
Qed.

(** A first-ranked score that is NaN, or absent, does not close the gate. *)
Lemma topBelow_nan (topResults : list ScoredChunk) (threshold : float) :
  topResults = []
  \/ (exists top rest, topResults = top :: rest /\ score top = nan) ->
  topBelow topResults threshold = false.
Proof.
  intros [-> | (top & rest & -> & Hnan)]; [reflexivity|].
  simpl. rewrite Hnan. apply Binary64Facts.ltb_nan_l.
Qed.

(** With a zero query embedding every score is NaN and the ranking is the
    store in its own order. *)
Lemma scoreAll_zero_query (engineOrder : list (list float) -> list nat)
      (q : list float) (store : list Chunk) :
  zeroVector q = true ->
  (forall c, In c store -> length (embedding c) = length q) ->
  scoreAll q store = Normal (List.map (fun c => mkScored c nan) store)
  /\ sort byScoreDesc engineOrder (List.map (fun c => mkScored c nan) store)
     = List.map (fun c => mkScored c nan) store.
Proof.
  intros Hz Hlen. split.
  - rewrite scoreAll_equal_lengths by assumption. f_equal.
    apply map_ext_in. intros c Hc. f_equal.
    assert (H : cosineSimilarity q (embedding c) = Normal nan)
      by (apply cosineSimilarity_zero_l; [symmetry; now apply Hlen | assumption]).
    rewrite cosineSimilarity_equal_length in H by (symmetry; now apply Hlen).
    now injection H.
  - apply sort_all_equal. intros x y Hx Hy.
    apply in_map_iff in Hx, Hy.
    destruct Hx as (cx & <- & _), Hy as (cy & <- & _).
    unfold sortCompare, byScoreDesc. cbn [score].
    rewrite Binary64Facts.sub_nan_l.
    now rewrite Binary64Facts.ltb_nan_r, Binary64Facts.ltb_nan_l.
Qed.

(** C10.  On vectors of one length, of which one is a zero vector,
    [cosineSimilarity] returns NaN and does not throw.  Whenever the
    first-ranked score is NaN, or there is no first-ranked chunk, the gate
    stays open and [findRelevantChunks] returns [topResults] as they are.
    So a query whose embedding is the zero vector gets, from a non-empty
    index and for [topK >= 1], the first [topK] chunks of the store, each
    with score NaN. *)
Theorem nan_score_passes_gate :
  (forall vecA vecB : list float,
      length vecA = length vecB ->
      zeroVector vecA = true \/ zeroVector vecB = true ->
      cosineSimilarity vecA vecB = Normal nan)
  /\ (forall (w : World) (question : jsString) (topK : Z) (threshold : float)
             (s : State) (q : list float) (scored : list ScoredChunk),
         embedQuery w question = Normal q ->
         scoreAll q (vectorStore s) = Normal scored ->
         topResultsOf w topK scored = []
         \/ (exists top rest,
                topResultsOf w topK scored = top :: rest /\ score top = nan) ->
         fst (findRelevantChunks w question topK threshold s)
         = Normal (topResultsOf w topK scored))
  /\ (forall (w : World) (question : jsString) (topK : Z) (threshold : float)
             (s : State) (q : list float),
         embedQuery w question = Normal q ->
         zeroVector q = true ->
         (forall c, In c (vectorStore s) -> length (embedding c) = length q) ->
         vectorStore s <> [] ->
         (1 <= topK)%Z ->
         exists result,
           fst (findRelevantChunks w question topK threshold s) = Normal result
           /\ result <> []
           /\ result = firstn (Z.to_nat topK)
                              (List.map (fun c => mkScored c nan) (vectorStore s))).
Proof.
  split; [exact cosineSimilarity_zero|]. split.
  - intros w question topK threshold s q scored Hq Hscored Htop.
    rewrite (@findRelevantChunks_gated w question topK threshold s q scored
                                       Hq Hscored).
    now rewrite topBelow_nan.
  - intros w question topK threshold s q Hq Hz Hlen Hne Hk.
    destruct (scoreAll_zero_query (sortOrder w) q (vectorStore s) Hz Hlen)
      as [Hscored Hsort].
    rewrite (@findRelevantChunks_gated w question topK threshold s q _
                                       Hq Hscored).
    unfold topResultsOf. rewrite Hsort, slice0_nonneg by lia.
    destruct (vectorStore s) as [|c store]; [congruence|].
    destruct (Z.to_nat topK) as [|k] eqn:Ek; [lia|].
    simpl. rewrite Binary64Facts.ltb_nan_l.
    eexists. split; [reflexivity|]. split; [discriminate | reflexivity].
Qed.

Lemma nan_score_passes_gate_witness :
  cosineSimilarity [0; 0] [3; 4] = Normal nan
  /\ fst (findRelevantChunks Sample.answering Sample.question 1
                             default_threshold Sample.storeWithZero)
     = Normal (topResultsOf Sample.answering 1
                 [ mkScored (mkChunk [0; 0] (lit "Shipping takes a week.")
                                     (lit "knowledge.txt")) nan;
                   mkScored (mkChunk [0x1.8p-1; 0x1p-1] Sample.knowledge
                                     (lit "knowledge.txt")) 0x1.0000000000001p+0 ]).
Proof.
  split.
  - apply (proj1 nan_score_passes_gate); [reflexivity | left; reflexivity].
  - apply (proj1 (proj2 nan_score_passes_gate)) with (q := [0x1.8p-1; 0x1p-1]).
    + reflexivity.
    + vm_compute. reflexivity.
    + right. eexists. eexists. split; [vm_compute; reflexivity | reflexivity].
Defined.

(** A query whose embedding is the zero vector: every chunk of the store
    comes back as evidence, with score NaN. *)
Example zero_query_embedding_is_not_rejected :
  let w := {| unicodeLower := fun s => s;
              sortOrder := V8.order;
              KNOWLEDGE_FILES := [];
              validationChain := fun _ => Normal (lit "valid");
              roleChain := fun _ => Normal (lit "general_info");
              embedQuery := fun _ => Normal [0; 0];
              existsSync := fun _ => false;
              readFileSync := fun _ => Normal [];
              createDocuments := fun _ => Normal [];
              chatModel := fun _ _ => Normal None |} in
  fst (findRelevantChunks w Sample.question default_topK default_threshold
                          Sample.storeWithOpposite)
  = Normal (List.map (fun c => mkScored c nan) (vectorStore Sample.storeWithOpposite)).
Proof. vm_compute. reflexivity. Qed.

(** A vector whose squares underflow has magnitude zero without being the
    zero vector; its similarity can be infinite, and such a score passes
    the gate as well. *)
Example underflow_gives_infinity :
  cosineSimilarity [0x1p-600] [1] = Normal infinity
  /\ (infinity <? default_threshold) = false.
Proof. vm_compute. split; reflexivity. Qed.

(** ** Further properties of the code *)

(** *** The configured knowledge files *)

Lemma trimStart_fixed (s : jsString) :
  match s with
  | c :: _ => isWhiteSpace c = false
  | [] => True
  end ->
  trimStart s = s.
Proof. destruct s as [|c s]; simpl; [reflexivity|]. now intros ->. Qed.

Lemma trim_fixed (s : jsString) :
  match s with
  | c :: _ => isWhiteSpace c = false
  | [] => True
  end ->
  match rev s with
  | c :: _ => isWhiteSpace c = false
  | [] => True
  end ->
  trim s = s.
Proof.
  intros Hhead Hlast. unfold trim, trimEnd.
  rewrite (trimStart_fixed s Hhead), (trimStart_fixed (rev s) Hlast).
  apply rev_involutive.
Qed.

(** Trimming a trimmed string changes nothing. *)
Lemma trim_idempotent (s : jsString) : trim (trim s) = trim s.
Proof.
  destruct (trim_spec s) as (pre & post & _ & _ & _ & Hhead & Hlast).
  now apply trim_fixed.
Qed.

Lemma trim_In (c : codeUnit) (s : jsString) : In c (trim s) -> In c s.
Proof.
  destruct (trim_spec s) as (pre & post & E & _). intros H.
  rewrite E. apply in_or_app. right. apply in_or_app. now left.
Qed.

Lemma trimStart_white (s : jsString) :
  forallb isWhiteSpace s = true -> trimStart s = [].
Proof.
  induction s as [|c s IH]; simpl; [reflexivity|].
  intros H. apply andb_true_iff in H. destruct H as [-> H]. now apply IH.
Qed.

Lemma trim_white (s : jsString) : forallb isWhiteSpace s = true -> trim s = [].
Proof. intros H. unfold trim. now rewrite (trimStart_white s H). Qed.

Lemma split_not_nil (sep : codeUnit) (s : jsString) : split sep s <> [].
Proof.
  destruct s as [|c s]; simpl; [discriminate|].
  destruct (c =? sep)%N; [discriminate|].
  destruct (split sep s); discriminate.
Qed.

(** The pieces hold the units of the string, the separator apart. *)
Lemma split_pieces (sep : codeUnit) (s : jsString) :
  forall piece c, In piece (split sep s) -> In c piece -> In c s /\ c <> sep.
Proof.
  induction s as [|d s IH]; intros piece c Hp Hc; simpl in Hp.
  - destruct Hp as [<- | []]. destruct Hc.
  - destruct (N.eqb_spec d sep) as [-> | Hd].
    + destruct Hp as [<- | Hp]; [destruct Hc|].
      destruct (IH piece c Hp Hc). split; [now right | assumption].
    + pose proof (split_not_nil sep s) as Hn.
      destruct (split sep s) as [|p ps]; [congruence|].
      destruct Hp as [<- | Hp].
      * destruct Hc as [<- | Hc]; [split; [now left | assumption]|].
        destruct (IH p c (or_introl eq_refl) Hc). split; [now right | assumption].
      * destruct (IH piece c (or_intror Hp) Hc). split; [now right | assumption].
Qed.

(** X1.  Whatever the environment variable holds, every configured file
    name is non-empty, has no white space at either end (trimming it again
    changes nothing) and contains no comma. *)
Theorem knowledgeFilesFromEnv_clean (env : option jsString) (name : jsString)
        (Hin : In name (knowledgeFilesFromEnv env)) :
  name <> [] /\ trim name = name /\ ~ In comma name.
Proof.
  unfold knowledgeFilesFromEnv in Hin. apply filter_In in Hin.
  destruct Hin as [Hin Htruthy]. apply in_map_iff in Hin.
  destruct Hin as (piece & <- & Hpiece).
  split; [|split].
  - intros E. rewrite E in Htruthy. discriminate.
  - apply trim_idempotent.
  - intros Hc. apply trim_In in Hc.
    destruct (split_pieces _ _ _ _ Hpiece Hc) as [_ Hne]. now apply Hne.
Qed.

Lemma knowledgeFilesFromEnv_clean_witness :
  lit "faq.txt" <> [] /\ trim (lit "faq.txt") = lit "faq.txt"
  /\ ~ In comma (lit "faq.txt").
Proof.
  apply (@knowledgeFilesFromEnv_clean
           (Some (lit " knowledge.txt ,, faq.txt,")) (lit "faq.txt")).
  vm_compute. right. left. reflexivity.
Defined.

Lemma split_no_separator (sep : codeUnit) (piece : jsString) :
  ~ In sep piece -> split sep piece = [piece].
Proof.
  induction piece as [|c piece IH]; intros H; simpl; [reflexivity|].
  destruct (N.eqb_spec c sep) as [-> | Hc]; [exfalso; apply H; now left|].
  rewrite IH; [reflexivity|]. intros Hin. apply H. now right.
Qed.

Lemma split_piece_then_rest (sep : codeUnit) (piece rest : jsString) :
  ~ In sep piece ->
  split sep (piece ++ sep :: rest) = piece :: split sep rest.
Proof.
  induction piece as [|c piece IH]; intros H; simpl.
  - now rewrite N.eqb_refl.
  - destruct (N.eqb_spec c sep) as [-> | Hc]; [exfalso; apply H; now left|].
    rewrite IH; [reflexivity|]. intros Hin. apply H. now right.
Qed.

(** Splitting undoes joining, for pieces free of the separator. *)
Lemma split_join (sep : codeUnit) (pieces : list jsString) :
  pieces <> [] ->
  Forall (fun piece => ~ In sep piece) pieces ->
  split sep (join [sep] pieces) = pieces.
Proof.
  intros Hne Hall. revert Hne.
  induction Hall as [|p ps Hp Hps IH]; intros Hne; [now elim Hne|].
  destruct ps as [|q ps].
  - simpl. now apply split_no_separator.
  - change (join [sep] (p :: q :: ps)) with (p ++ sep :: join [sep] (q :: ps)).
    rewrite split_piece_then_rest by assumption.
    rewrite IH; [reflexivity | discriminate].
Qed.

(** X2.  A list of file names, each non-empty, without white space at its
    ends and without a comma, written to the variable with commas between
    them, is read back as it is. *)
Theorem knowledgeFilesFromEnv_join (names : list jsString)
        (Hne : names <> [])
        (Hclean : Forall (fun name => name <> [] /\ trim name = name
                                      /\ ~ In comma name) names) :
  knowledgeFilesFromEnv (Some (join [comma] names)) = names.
Proof.
  assert (Hsplit : split comma (join [comma] names) = names).
  { apply split_join; [assumption|].
    eapply Forall_impl; [|exact Hclean]. simpl. tauto. }
  assert (Hjoin : join [comma] names <> []).
  { destruct names as [|n ns]; [congruence|].
    inversion Hclean as [|? ? (Hn & _) _]; subst.
    destruct n as [|c n]; [congruence|]. destruct ns; discriminate. }
  unfold knowledgeFilesFromEnv.
  destruct (join [comma] names) as [|c s] eqn:E; [congruence|].
  rewrite Hsplit. clear Hsplit Hjoin E Hne.
  induction Hclean as [|n ns (Hn & Ht & _) _ IH]; [reflexivity|].
  simpl. rewrite Ht, IH. destruct n; [congruence | reflexivity].
Qed.

Lemma knowledgeFilesFromEnv_join_witness :
  knowledgeFilesFromEnv
    (Some (join [comma] [lit "knowledge.txt"; lit "faq.txt"; lit "pricing notes.md"]))
  = [lit "knowledge.txt"; lit "faq.txt"; lit "pricing notes.md"].
Proof.
  apply knowledgeFilesFromEnv_join; [discriminate|].
  repeat constructor; try discriminate; vm_compute; intuition discriminate.
Defined.

(** X3.  With the variable unset or empty the one file is [knowledge.txt];
    with a value made of commas and white space only there is no file at
    all, and not the default. *)
Theorem knowledgeFilesFromEnv_default_and_blank :
  knowledgeFilesFromEnv None = [lit "knowledge.txt"]
  /\ knowledgeFilesFromEnv (Some []) = [lit "knowledge.txt"]
  /\ (forall env : jsString,
         env <> [] ->
         (forall c, In c env -> c = comma \/ isWhiteSpace c = true) ->
         knowledgeFilesFromEnv (Some env) = []).
Proof.
  split; [reflexivity|]. split; [reflexivity|].
  intros env Hne Hblank. unfold knowledgeFilesFromEnv.
  destruct env as [|c0 env]; [congruence|].
  assert (Hall : forall piece, In piece (split comma (c0 :: env)) ->
                               trim piece = []).
  { intros piece Hp. apply trim_white. apply forallb_forall. intros c Hc.
    destruct (split_pieces _ _ _ _ Hp Hc) as [Hin Hcomma].
    destruct (Hblank c Hin); [contradiction | assumption]. }
  induction (split comma (c0 :: env)) as [|p ps IH]; [reflexivity|].
  simpl. rewrite (Hall p) by now left. simpl. apply IH.
  intros piece Hp. apply Hall. now right.
Qed.

Lemma knowledgeFilesFromEnv_default_and_blank_witness :
  knowledgeFilesFromEnv (Some (lit " , ,, ")) = [].
Proof.
  apply (proj2 (proj2 knowledgeFilesFromEnv_default_and_blank)).
  - discriminate.
  - intros c Hc. vm_compute in Hc.
    repeat (destruct Hc as [<- | Hc]; [vm_compute; auto|]). destruct Hc.
Defined.

(** *** Building the index: files passed over, provenance, faults *)

Lemma loadFiles_cons_passedOver (w : World) (path : jsString)
      (rest : list jsString) (s : State) :
  passedOver w path = true ->
  loadFiles w (path :: rest) s = loadFiles w rest s.
Proof.
  unfold passedOver. simpl loadFiles.
  destruct (existsSync w path); simpl; [|reflexivity].
  unfold bind, liftC.
  destruct (readFileSync w path) as [raw|e]; [|discriminate].
  destruct (trim raw); [reflexivity | discriminate].
Qed.

Lemma loadFiles_cons_ext (w : World) (path : jsString) (l1 l2 : list jsString) :
  (forall s, loadFiles w l1 s = loadFiles w l2 s) ->
  forall s, loadFiles w (path :: l1) s = loadFiles w (path :: l2) s.
Proof.
  intros H s. simpl. destruct (existsSync w path); simpl; [|apply H].
  unfold bind, liftC, await.
  destruct (readFileSync w path) as [raw|e]; [|reflexivity].
  destruct (trim raw) as [|c t]; [apply H|].
  destruct (createDocuments w (c :: t)) as [docs|e]; [|reflexivity].
  destruct (embedDocs w path docs _) as [[u|e] s']; [apply H | reflexivity].
Qed.

Lemma loadFiles_passedOver (w : World) (filePaths : list jsString) :
  forall s : State,
    loadFiles w filePaths s
    = loadFiles w (filter (fun path => negb (passedOver w path)) filePaths) s.
Proof.
  induction filePaths as [|path rest IH]; intros s; [reflexivity|].
  simpl filter. destruct (passedOver w path) eqn:Hp; simpl negb; cbv iota.
  - rewrite loadFiles_cons_passedOver by assumption. apply IH.
  - now apply loadFiles_cons_ext.
Qed.

(** X4.  Files that do not exist, and files whose text is empty once
    trimmed, are passed over without a trace: a build over a list of files
    is, in its result, its store and its calls, the build over the list
    without them. *)
Theorem loadKnowledgeBase_passes_over (w : World) (filePaths : list jsString)
        (s : State) :
  loadKnowledgeBase w filePaths s
  = loadKnowledgeBase w (filter (fun path => negb (passedOver w path)) filePaths) s.
Proof.
  unfold loadKnowledgeBase, bind, getStore.
  destruct (0 <? length (vectorStore s))%nat; [reflexivity|].
  now rewrite loadFiles_passedOver.
Qed.

Lemma pendingDocs_In (w : World) (path : jsString) (docs : list jsString)
      (after : list Chunk) (c : Chunk) :
  In c (pendingDocs w path docs after) ->
  In c after
  \/ (fileName c = path /\ In (text c) docs
      /\ embedQuery w (text c) = Normal (embedding c)).
Proof.
  induction docs as [|d docs IH]; simpl; [auto|].
  destruct (embedQuery w d) as [v|e] eqn:He; [|intros []].
  intros [<- | H]; [right; simpl; auto|].
  destruct (IH H) as [Ha | (Hf & Ht & Hq)]; auto.
Qed.

Lemma pendingFiles_In (w : World) (filePaths : list jsString) (c : Chunk) :
  In c (pendingFiles w filePaths) ->
  In (fileName c) filePaths
  /\ existsSync w (fileName c) = true
  /\ exists raw docs,
      readFileSync w (fileName c) = Normal raw
      /\ trim raw <> []
      /\ createDocuments w (trim raw) = Normal docs
      /\ In (text c) docs
      /\ embedQuery w (text c) = Normal (embedding c).
Proof.
  induction filePaths as [|path rest IH]; simpl; [intros []|].
  assert (Hrest : In c (pendingFiles w rest) ->
                  (path = fileName c \/ In (fileName c) rest)
                  /\ existsSync w (fileName c) = true
                  /\ exists raw docs,
                      readFileSync w (fileName c) = Normal raw
                      /\ trim raw <> []
                      /\ createDocuments w (trim raw) = Normal docs
                      /\ In (text c) docs
                      /\ embedQuery w (text c) = Normal (embedding c)).
  { intros H. destruct (IH H) as (Hin & Hrest). split; [now right | exact Hrest]. }
  destruct (existsSync w path) eqn:Hex; simpl; [|exact Hrest].
  destruct (readFileSync w path) as [raw|e] eqn:Hread; [|intros []].
  destruct (trim raw) as [|c0 t] eqn:Htrim; [exact Hrest|].
  destruct (createDocuments w (c0 :: t)) as [docs|e] eqn:Hdocs; [|intros []].
  intros H. destruct (pendingDocs_In _ _ _ _ _ H) as [Ha | (Hf & Ht & Hq)];
    [now apply Hrest|].
  subst path. split; [now left|]. split; [exact Hex|].
  exists raw, docs. rewrite Htrim. repeat split; auto. discriminate.
Qed.

(** X5.  After a build on an empty store, every record of the store comes
    from a listed file that exists: its text is one of the documents the
    splitter made of that file's trimmed, non-empty text, and its embedding
    is what the embedding model returned for that text. *)
Theorem loadKnowledgeBase_provenance (w : World) (filePaths : list jsString)
        (s : State) (c : Chunk)
        (Hempty : vectorStore s = [])
        (Hin : In c (vectorStore (snd (loadKnowledgeBase w filePaths s)))) :
  In (fileName c) filePaths
  /\ existsSync w (fileName c) = true
  /\ exists raw docs,
      readFileSync w (fileName c) = Normal raw
      /\ trim raw <> []
      /\ createDocuments w (trim raw) = Normal docs
      /\ In (text c) docs
      /\ embedQuery w (text c) = Normal (embedding c).
Proof.
  rewrite (loadKnowledgeBase_empty w filePaths s Hempty) in Hin.
  now apply pendingFiles_In.
Qed.

Lemma loadKnowledgeBase_provenance_witness :
  In (lit "knowledge.txt") [lit "missing.txt"; lit "knowledge.txt"]
  /\ existsSync Sample.answering (lit "knowledge.txt") = true
  /\ exists raw docs,
      readFileSync Sample.answering (lit "knowledge.txt") = Normal raw
      /\ trim raw <> []
      /\ createDocuments Sample.answering (trim raw) = Normal docs
      /\ In Sample.knowledge docs
      /\ embedQuery Sample.answering Sample.knowledge = Normal [1; 0].
Proof.
  apply (@loadKnowledgeBase_provenance
           Sample.answering [lit "missing.txt"; lit "knowledge.txt"]
           Sample.start
           (mkChunk [1; 0] Sample.knowledge (lit "knowledge.txt"))).
  - reflexivity.
  - vm_compute. left. reflexivity.
Defined.

Lemma embedDocs_fault (w : World) (path : jsString)
      (done : list (jsString * list float)) (bad : jsString)
      (later : list jsString) (e : jsError) :
  Forall (fun d => embedQuery w (fst d) = Normal (snd d)) done ->
  embedQuery w bad = Throw e ->
  forall s,
    fst (embedDocs w path (List.map fst done ++ bad :: later) s) = Throw e
    /\ vectorStore (snd (embedDocs w path (List.map fst done ++ bad :: later) s))
       = vectorStore s ++ List.map (fun d => mkChunk (snd d) (fst d) path) done.
Proof.
  intros Hdone Hbad. induction Hdone as [|d done Hd _ IH]; intros s; simpl.
  - unfold bind, await. rewrite Hbad. simpl. now rewrite app_nil_r.
  - unfold bind, await, push. rewrite Hd. simpl.
    match goal with
    | |- context [embedDocs w path _ ?s0] => destruct (IH s0) as [H1 H2]
    end.
    split; [exact H1|]. rewrite H2. simpl. now rewrite <- app_assoc.
Qed.

(** X6.  A build that throws is not undone.  When the embedding of a
    document of the first usable file throws after at least one document
    was embedded, the build throws that error, the chunks embedded so far
    stay in the store, and from then on every build, of whatever files and
    with whatever collaborators, returns that partial store untouched: the
    index is never completed. *)
Theorem loadKnowledgeBase_fault_leaves_partial_index
        (w w' : World) (path raw bad : jsString)
        (rest filePaths' later : list jsString)
        (done : list (jsString * list float)) (e : jsError) (cs : list Call)
        (Hexists : existsSync w path = true)
        (Hread : readFileSync w path = Normal raw)
        (Htext : trim raw <> [])
        (Hdocs : createDocuments w (trim raw)
                 = Normal (List.map fst done ++ bad :: later))
        (Hdone : Forall (fun d => embedQuery w (fst d) = Normal (snd d)) done)
        (Hsome : done <> [])
        (Hbad : embedQuery w bad = Throw e) :
  let failed := loadKnowledgeBase w (path :: rest) (mkState [] cs) in
  fst failed = Throw e
  /\ vectorStore (snd failed)
     = List.map (fun d => mkChunk (snd d) (fst d) path) done
  /\ loadKnowledgeBase w' filePaths' (snd failed)
     = (Normal (vectorStore (snd failed)), snd failed).
Proof.
  cbv zeta.
  assert (H : fst (loadKnowledgeBase w (path :: rest) (mkState [] cs)) = Throw e
              /\ vectorStore (snd (loadKnowledgeBase w (path :: rest) (mkState [] cs)))
                 = List.map (fun d => mkChunk (snd d) (fst d) path) done).
  { unfold loadKnowledgeBase, bind, getStore. simpl.
    rewrite Hexists. simpl. unfold bind, liftC, await. rewrite Hread.
    destruct (trim raw) as [|c t] eqn:Htrim; [congruence|].
    rewrite Hdocs.
    match goal with
    | |- context [embedDocs w path _ ?s0] =>
        destruct (@embedDocs_fault w path done bad later e Hdone Hbad s0) as [H1 H2];
        destruct (embedDocs w path (List.map fst done ++ bad :: later) s0)
          as [[u|e'] s']
    end; simpl in H1, H2; [discriminate|].
    simpl. split; [congruence | exact H2]. }
  destruct H as [H1 H2]. split; [exact H1|]. split; [exact H2|].
  apply loadKnowledgeBase_ready. rewrite H2.
  destruct done; [congruence | discriminate].
Qed.

Lemma loadKnowledgeBase_fault_leaves_partial_index_witness :
  let failed :=
    loadKnowledgeBase Sample.flaky [lit "knowledge.txt"] Sample.start in
  fst failed = Throw Sample.fault
  /\ vectorStore (snd failed)
     = [mkChunk [1; 0] (lit "Our refund window") (lit "knowledge.txt")]
  /\ loadKnowledgeBase Sample.answering [lit "knowledge.txt"] (snd failed)
     = (Normal (vectorStore (snd failed)), snd failed).
Proof.
  apply (@loadKnowledgeBase_fault_leaves_partial_index
           Sample.flaky Sample.answering (lit "knowledge.txt")
           Sample.knowledge (lit "is 30 days.") [] [lit "knowledge.txt"] []
           [(lit "Our refund window", [1; 0])] Sample.fault []).
  - reflexivity.
  - reflexivity.
  - discriminate.
  - reflexivity.
  - repeat constructor.
  - discriminate.
  - reflexivity.
Defined.

Lemma loadFiles_app (w : World) (l1 l2 : list jsString) :
  forall s : State,
    loadFiles w (l1 ++ l2) s
    = match loadFiles w l1 s with
      | (Normal _, s') => loadFiles w l2 s'
      | (Throw e, s') => (Throw e, s')
      end.
Proof.
  induction l1 as [|path rest IH]; intros s; [reflexivity|].
  simpl. destruct (existsSync w path); simpl; [|apply IH].
  unfold bind, liftC, await.
  destruct (readFileSync w path) as [raw|e]; [|reflexivity].
  destruct (trim raw) as [|c t]; [apply IH|].
  destruct (createDocuments w (c :: t)) as [docs|e]; [|reflexivity].
  destruct (embedDocs w path docs _) as [[u|e] s']; [apply IH | reflexivity].
Qed.

(** Whether the loops return or throw depends on the world only. *)
Lemma embedDocs_outcome (w : World) (path : jsString) (docs : list jsString) :
  forall s s', fst (embedDocs w path docs s) = fst (embedDocs w path docs s').
Proof.
  induction docs as [|d docs IH]; intros s s'; [reflexivity|].
  simpl. unfold bind, await, push.
  destruct (embedQuery w d) as [v|e]; [|reflexivity]. apply IH.
Qed.

Lemma loadFiles_outcome (w : World) (filePaths : list jsString) :
  forall s s', fst (loadFiles w filePaths s) = fst (loadFiles w filePaths s').
Proof.
  induction filePaths as [|path rest IH]; intros s s'; [reflexivity|].
  simpl. destruct (existsSync w path); simpl; [|apply IH].
  unfold bind, liftC, await.
  destruct (readFileSync w path) as [raw|e]; [|reflexivity].
  destruct (trim raw) as [|c t]; [apply IH|].
  destruct (createDocuments w (c :: t)) as [docs|e]; [|reflexivity].
  match goal with
  | |- fst (let (_, _) := embedDocs w path docs ?a in _)
       = fst (let (_, _) := embedDocs w path docs ?b in _) =>
      pose proof (embedDocs_outcome w path docs a b) as H;
      destruct (embedDocs w path docs a) as [[u|e] sa];
      destruct (embedDocs w path docs b) as [[u'|e'] sb]
  end; simpl in H; try discriminate; [apply IH | exact H].
Qed.

(** X7.  Files are not told apart: when the build of a first list of files
    returns, the index built from that list followed by a second one is the
    index of the first followed by the index of the second.  A file listed
    twice is indexed twice. *)
Theorem loadKnowledgeBase_app (w : World) (l1 l2 : list jsString)
        (cs cs1 cs2 : list Call) (built : list Chunk)
        (Hfirst : fst (loadKnowledgeBase w l1 (mkState [] cs1)) = Normal built) :
  vectorStore (snd (loadKnowledgeBase w (l1 ++ l2) (mkState [] cs)))
  = vectorStore (snd (loadKnowledgeBase w l1 (mkState [] cs1)))
    ++ vectorStore (snd (loadKnowledgeBase w l2 (mkState [] cs2))).
Proof.
  rewrite !loadKnowledgeBase_builds.
  assert (Hl1 : fst (loadFiles w l1 (mkState [] cs)) = Normal tt).
  { unfold loadKnowledgeBase, bind, getStore in Hfirst. simpl in Hfirst.
    rewrite (loadFiles_outcome w l1 (mkState [] cs) (mkState [] cs1)).
    destruct (loadFiles w l1 (mkState [] cs1)) as [[[]|e] s']; [reflexivity|].
    discriminate. }
  pose proof (loadFiles_pushes w (l1 ++ l2) (mkState [] cs)) as Hall.
  rewrite loadFiles_app in Hall.
  pose proof (loadFiles_pushes w l1 (mkState [] cs)) as H1.
  destruct (loadFiles w l1 (mkState [] cs)) as [[u|e] s1]; [|discriminate].
  rewrite loadFiles_pushes in Hall. simpl in Hall, H1.
  rewrite H1 in Hall. simpl in Hall.
  symmetry. exact Hall.
Qed.

Lemma loadKnowledgeBase_app_witness :
  vectorStore (snd (loadKnowledgeBase Sample.answering
                      ([lit "knowledge.txt"] ++ [lit "knowledge.txt"])
                      Sample.start))
  = vectorStore (snd (loadKnowledgeBase Sample.answering [lit "knowledge.txt"]
                        Sample.start))
    ++ vectorStore (snd (loadKnowledgeBase Sample.answering [lit "knowledge.txt"]
                           Sample.start)).
Proof.
  apply (@loadKnowledgeBase_app
           Sample.answering [lit "knowledge.txt"] [lit "knowledge.txt"] [] [] []
           [mkChunk [1; 0] Sample.knowledge (lit "knowledge.txt")]).
  vm_compute. reflexivity.
Defined.

(** *** Retrieval: what comes back *)

Lemma scoreAll_Normal (q : list float) (store : list Chunk) :
  forall scored,
    scoreAll q store = Normal scored ->
    List.map item scored = store
    /\ Forall (fun r => cosineSimilarity q (embedding (item r)) = Normal (score r))
              scored.
Proof.
  induction store as [|c store IH]; intros scored H; simpl in H.
  - injection H as <-. split; constructor.
  - destruct (cosineSimilarity q (embedding c)) as [v|e] eqn:Hc; [|discriminate].
    destruct (scoreAll q store) as [rest|e]; [|discriminate].
    injection H as <-. destruct (IH rest eq_refl) as [Hm Hf].
    split; [simpl; now rewrite Hm | now constructor].
Qed.

(** X8.  When [findRelevantChunks] returns, the store is as it was, and the
    result holds at most [topK] chunks, each one a record of the store
    together with its own cosine similarity to the query embedding; no
    record comes back more often than it is in the store. *)
Theorem findRelevantChunks_result
        (w : World) (question : jsString) (topK : Z) (threshold : float)
        (s : State) (result : list ScoredChunk)
        (Hk : (0 <= topK)%Z)
        (Hres : fst (findRelevantChunks w question topK threshold s)
                = Normal result) :
  vectorStore (snd (findRelevantChunks w question topK threshold s))
  = vectorStore s
  /\ (length result <= Z.to_nat topK)%nat
  /\ (exists q,
         embedQuery w question = Normal q
         /\ forall r, In r result ->
                      In (item r) (vectorStore s)
                      /\ cosineSimilarity q (embedding (item r))
                         = Normal (score r))
  /\ exists others,
      Permutation (List.map item result ++ others) (vectorStore s).
Proof.
  rewrite findRelevantChunks_run in *. simpl in *.
  split; [reflexivity|].
  destruct (embedQuery w question) as [q|e]; [|discriminate].
  destruct (scoreAll q (vectorStore s)) as [scored|e] eqn:Hscored; [|discriminate].
  injection Hres as <-.
  destruct (scoreAll_Normal _ _ Hscored) as [Hitems Hscores].
  unfold topResultsOf. rewrite slice0_nonneg by assumption.
  set (ranked := sort byScoreDesc (sortOrder w) scored).
  assert (Hperm : Permutation ranked scored) by apply sort_perm.
  destruct (topBelow (firstn (Z.to_nat topK) ranked) threshold).
  - split; [simpl; lia|]. split.
    + exists q. split; [reflexivity | intros r []].
    + exists (vectorStore s). reflexivity.
  - split; [apply firstn_le_length|]. split.
    + exists q. split; [reflexivity|]. intros r Hr.
      assert (Hin : In r scored).
      { apply (Permutation_in _ Hperm).
        rewrite <- (firstn_skipn (Z.to_nat topK) ranked).
        apply in_or_app. now left. }
      split.
      * rewrite <- Hitems. now apply in_map.
      * rewrite Forall_forall in Hscores. now apply Hscores.
    + exists (List.map item (skipn (Z.to_nat topK) ranked)).
      rewrite <- map_app, firstn_skipn, <- Hitems.
      now apply Permutation_map.
Qed.

Lemma findRelevantChunks_result_witness :
  exists result,
    fst (findRelevantChunks Sample.answering Sample.question 1
           default_threshold Sample.storeWithOpposite)
    = Normal result
    /\ (length result <= 1)%nat
    /\ exists others,
        Permutation (List.map item result ++ others)
                    (vectorStore Sample.storeWithOpposite).
Proof.
  eexists. split; [vm_compute; reflexivity|].
  assert (Hk : (0 <= 1)%Z) by lia.
  destruct (@findRelevantChunks_result
              Sample.answering Sample.question 1 default_threshold
              Sample.storeWithOpposite _ Hk eq_refl)
    as (_ & Hlen & _ & Hperm).
  split; [exact Hlen | exact Hperm].
Defined.

(** X9.  When the embedding model returns vectors of one length for every
    input, an index it has built never makes retrieval throw: on the store
    left by a build from empty, [findRelevantChunks] returns whenever the
    embedding of the question succeeds, and throws only that call's own
    error. *)
Theorem findRelevantChunks_on_uniform_index
        (w : World) (filePaths : list jsString) (s0 : State)
        (question : jsString) (topK : Z) (threshold : float)
        (d : nat) (cs : list Call)
        (Hdim : forall input v, embedQuery w input = Normal v -> length v = d)
        (Hempty : vectorStore s0 = []) :
  let built := vectorStore (snd (loadKnowledgeBase w filePaths s0)) in
  match embedQuery w question with
  | Normal _ =>
      exists result,
        fst (findRelevantChunks w question topK threshold (mkState built cs))
        = Normal result
  | Throw e =>
      fst (findRelevantChunks w question topK threshold (mkState built cs))
      = Throw e
  end.
Proof.
  cbv zeta. rewrite findRelevantChunks_run. simpl.
  destruct (embedQuery w question) as [q|e] eqn:Hq; [|reflexivity].
  rewrite scoreAll_equal_lengths; [eexists; reflexivity|].
  intros c Hc.
  destruct (loadKnowledgeBase_provenance w filePaths s0 c Hempty Hc)
    as (_ & _ & raw & docs & _ & _ & _ & _ & Hemb).
  rewrite (Hdim _ _ Hemb). symmetry. exact (Hdim _ _ Hq).
Qed.

Lemma findRelevantChunks_on_uniform_index_witness :
  exists result,
    fst (findRelevantChunks Sample.answering Sample.question 3 default_threshold
           (mkState (vectorStore
                       (snd (loadKnowledgeBase Sample.answering
                               [lit "knowledge.txt"] Sample.start)))
                    []))
    = Normal result.
Proof.
  apply (@findRelevantChunks_on_uniform_index
           Sample.answering [lit "knowledge.txt"] Sample.start
           Sample.question 3 default_threshold 2 []).
  - intros input v H. simpl in H.
    destruct (string_eqb input Sample.question); injection H as <-; reflexivity.
  - reflexivity.
Defined.

(** *** The [/ask] route: what each path calls and sends *)

(** X10.  A query the validator does not label "valid" is answered with
    the request for details and nothing else happens: the validation call
    is the only call made (no classification, no embedding, no chat), and
    the store is untouched. *)
Theorem ask_requests_details
        (w : World) (query raw : jsString) (s : State)
        (Hquery : query <> [])
        (Hraw : validationChain w query = Normal raw)
        (Hlabel : toLowerCase (unicodeLower w) (trim raw) <> lit "valid") :
  ask w (Some query) s
  = (Normal (Send 200 (lit "Could you provide more details about your question?")),
     mkState (vectorStore s) (calls s ++ [CallValidation query])).
Proof.
  destruct query as [|c query]; [congruence|].
  unfold ask. unfold bind at 1. rewrite validateQuestion_run, Hraw.
  destruct (string_eqb _ (lit "valid")) eqn:E.
  - apply string_eqb_eq in E. contradiction.
  - reflexivity.
Qed.

Lemma ask_requests_details_witness :
  ask (Sample.world (Normal (lit "Needs_More_Context")) (Throw Sample.fault) [])
      (Some (lit "tx blocked")) Sample.start
  = (Normal (Send 200 (lit "Could you provide more details about your question?")),
     mkState [] [CallValidation (lit "tx blocked")]).
Proof.
  apply (@ask_requests_details
           (Sample.world (Normal (lit "Needs_More_Context")) (Throw Sample.fault) [])
           (lit "tx blocked") (lit "Needs_More_Context") Sample.start).
  - discriminate.
  - reflexivity.
  - vm_compute. discriminate.
Defined.




Lemma join_length (sep : jsString) (parts : list jsString) :
  length (join sep parts)
  = (list_sum (List.map (@length codeUnit) parts)
     + length sep * (length parts - 1))%nat.
Proof.
  induction parts as [|p parts IH]; [simpl; lia|].
  destruct parts as [|q parts].
  - simpl. lia.
  - change (join sep (p :: q :: parts)) with (p ++ sep ++ join sep (q :: parts)).
    rewrite !length_app, IH. simpl. lia.
Qed.

(** X12.  The context put before the chat model takes, for each chunk, the
    seven units of "From ", ":" and the line break, the file name, and at
    most 600 code units of the chunk's text, with two line breaks between
    chunks: however long the stored texts, its length is bounded by the
    file names plus 609 per chunk. *)
Theorem contextOf_length (relevantChunks : list ScoredChunk) :
  length (contextOf relevantChunks)
  = (list_sum (List.map (fun r => 7 + length (fileName (item r))
                                  + Nat.min 600 (length (text (item r))))
                        relevantChunks)
     + 2 * (length relevantChunks - 1))%nat
  /\ (length (contextOf relevantChunks)
      <= list_sum (List.map (fun r => length (fileName (item r))) relevantChunks)
         + 609 * length relevantChunks)%nat.
Proof.
  assert (Hlen : length (contextOf relevantChunks)
                 = (list_sum (List.map (fun r => 7 + length (fileName (item r))
                                  + Nat.min 600 (length (text (item r))))
                        relevantChunks)
                    + 2 * (length relevantChunks - 1))%nat).
  { unfold contextOf. rewrite join_length, map_map, length_map.
    f_equal. f_equal. apply map_ext. intros r.
    rewrite !length_app, length_firstn.
    change (length (lit "From ")) with 5%nat.
    change (length (lit ":")) with 1%nat.
    change (length nl) with 1%nat. lia. }
  split; [exact Hlen|]. rewrite Hlen. clear Hlen.
  induction relevantChunks as [|r rs IH]; [simpl; lia|].
  cbn [List.map list_sum fold_right length] in *.
  fold (list_sum (List.map (fun r => 7 + length (fileName (item r))
                                 + Nat.min 600 (length (text (item r)))) rs))%nat in *.
  fold (list_sum (List.map (fun r => length (fileName (item r))) rs)) in *.
  lia.
Qed.

Lemma loadKnowledgeBase_store (w : World) (filePaths : list jsString) (s : State) :
  exists added,
    vectorStore (snd (loadKnowledgeBase w filePaths s)) = vectorStore s ++ added
    /\ (vectorStore s <> [] -> added = []).
Proof.
  destruct (vectorStore s) as [|c store] eqn:Hs.
  - exists (pendingFiles w filePaths). split; [|congruence].
    now apply loadKnowledgeBase_empty.
  - exists []. split; [|reflexivity].
    rewrite loadKnowledgeBase_ready by congruence. now rewrite app_nil_r.
Qed.

(** X13.  Whatever a request does, the index only grows, and only from
    empty: the store after the handler is the store before it followed by
    what was added, and nothing is added to a store that held a chunk. *)
Theorem ask_store_grows_only_from_empty
        (w : World) (query : option jsString) (s : State) :
  exists added,
    vectorStore (snd (ask w query s)) = vectorStore s ++ added
    /\ (vectorStore s <> [] -> added = []).
Proof.
  assert (Hsame : forall s' : State,
             vectorStore s' = vectorStore s ->
             exists added,
               vectorStore s' = vectorStore s ++ added
               /\ (vectorStore s <> [] -> added = [])).
  { intros s' H. exists []. rewrite app_nil_r. auto. }
  destruct query as [[|c query]|]; [now apply Hsame | | now apply Hsame].
  unfold ask. unfold bind at 1.
  destruct (validateQuestion w (c :: query) s) as [[isValid|e] s1] eqn:Hv;
    pose proof (f_equal (fun r => vectorStore (snd r)) Hv) as Hs1;
    rewrite validateQuestion_run in Hs1; simpl in Hs1;
    [|now apply Hsame].
  destruct isValid; cbn [negb]; [|now apply Hsame].
  unfold try_catch.
  assert (Hbody : exists added,
             vectorStore (snd (askBody w (c :: query) s1))
             = vectorStore s ++ added
             /\ (vectorStore s <> [] -> added = [])).
  { unfold askBody, bind.
    destruct (classifyRole w (c :: query) s1) as [[role|e] s2] eqn:Hrole;
      pose proof (f_equal (fun r => vectorStore (snd r)) Hrole) as Hs2;
      rewrite classifyRole_run in Hs2; simpl in Hs2;
      [|apply Hsame; simpl; congruence].
    destruct (loadKnowledgeBase_store w (KNOWLEDGE_FILES w) s2)
      as (added & Hstore & Hnone).
    rewrite <- Hs2, <- Hs1 in Hstore, Hnone.
    destruct (loadKnowledgeBase w (KNOWLEDGE_FILES w) s2) as [[built|e] s3];
      simpl in Hstore; [|exists added; split; assumption].
    destruct (findRelevantChunks w (c :: query) 3 default_threshold s3)
      as [[found|e] s4] eqn:Hfound;
      pose proof (f_equal (fun r => vectorStore (snd r)) Hfound) as Hs4;
      rewrite findRelevantChunks_run in Hs4; simpl in Hs4;
      [|exists added; split; [simpl; congruence | assumption]].
    destruct (length found =? 0)%nat;
      [exists added; split; [simpl; congruence | assumption]|].
    unfold await.
    destruct (chatModel w _ (c :: query)) as [content|e];
      exists added; (split; [simpl; congruence | assumption]). }
  destruct (askBody w (c :: query) s1) as [[r|e] s5]; exact Hbody.
Qed.

(** X14.  On a request whose query is absent or a string, the handler
    answers with status 200, 400 or 500 and no other.  Among these
    requests it is 400, with the message "Missing query.", exactly for the
    absent query and the empty string, and then no collaborator is called
    and nothing changes; it is 500 only on a query that passed validation;
    and the handler ends without an answer only when the validation call
    itself threw. *)
Theorem ask_statuses (w : World) (query : option jsString) (s : State) :
  (query = None \/ query = Some [] ->
   ask w query s = (Normal (SendJsonError 400 (lit "Missing query.")), s))
  /\
  match fst (ask w query s) with
  | Normal (SendJsonError status message) =>
      status = 400%Z /\ message = lit "Missing query."
      /\ (query = None \/ query = Some [])
      /\ snd (ask w query s) = s
  | Normal (Send status body) =>
      (status = 200%Z \/ status = 500%Z)
      /\ (exists q, query = Some q /\ q <> [])
      /\ (status = 500%Z ->
          exists q, query = Some q
                    /\ fst (validateQuestion w q s) = Normal true)
  | Throw e =>
      exists q, query = Some q /\ q <> [] /\ validationChain w q = Throw e
  end.
Proof.
  split; [intros [-> | ->]; reflexivity|].
  destruct query as [[|c query]|]; [simpl; auto | | simpl; auto].
  pose proof (ask_outcomes w (Some (c :: query)) s) as Hout.
  assert (Hq : exists q, Some (c :: query) = Some q /\ q <> [])
    by (eexists; split; [reflexivity | discriminate]).
  unfold ask in *. unfold bind at 1 in Hout. unfold bind at 1.
  rewrite validateQuestion_run in *.
  destruct (validationChain w (c :: query)) as [raw|e] eqn:Hv.
  - destruct (string_eqb _ _) eqn:Hvalid; cbn [negb] in *.
    + destruct (fst (try_catch _ _ _)) as [[st msg|st body]|e].
      * destruct Hout as (_ & _ & [H | H]); discriminate.
      * split; [|split; [exact Hq|]].
        -- destruct Hout as [[-> _] | [[-> _] | [[-> _] | [-> _]]]]; auto.
        -- intros _. exists (c :: query). split; [reflexivity|].
           rewrite validateQuestion_run, Hv, Hvalid. reflexivity.
      * destruct Hout as (q & Hq' & He). injection Hq' as <-. congruence.
    + simpl. split; [auto|]. split; [exact Hq|]. discriminate.
  - simpl. exists (c :: query). repeat split; [discriminate | exact Hv].
Qed.

(** *** Calls in flight together: what any schedule does *)

(** A segment only ever appends to the store. *)
Lemma resume_grows (w : World) (t : Task) (store : list Chunk) :
  exists pushed, snd (resume w t store) = store ++ pushed.
Proof.
  destruct t as [paths|path txt rest|path d docs rest| |e]; simpl.
  - destruct (0 <? length store)%nat; exists []; now rewrite app_nil_r.
  - destruct (createDocuments w txt); exists []; now rewrite app_nil_r.
  - destruct (embedQuery w d) as [v|e]; simpl;
      [now exists [mkChunk v d path] | exists []; now rewrite app_nil_r].
  - exists []. now rewrite app_nil_r.
  - exists []. now rewrite app_nil_r.
Qed.

(** After its first segment a call is past the guard. *)
Lemma resume_leaves_guard (w : World) (t : Task) (store : list Chunk) :
  pastGuard (fst (resume w t store)) = true.
Proof.
  destruct t as [paths|path txt rest|path d docs rest| |e].
  - simpl. destruct (0 <? length store)%nat; simpl;
      [reflexivity | apply pastGuard_enterFiles].
  - now apply resume_pastGuard.
  - now apply resume_pastGuard.
  - reflexivity.
  - reflexivity.
Qed.

Lemma runAlone_pending (w : World) (n : nat) :
  forall (t : Task) (store : list Chunk),
    pastGuard t = true ->
    snd (runAlone w n t store) ++ pending w (fst (runAlone w n t store))
    = store ++ pending w t.
Proof.
  induction n as [|n IH]; intros t store Hg; [reflexivity|].
  simpl. destruct (resume_pastGuard w t store Hg) as (Hg' & pushed & Hs & Hp).
  destruct (resume w t store) as [t' store']. simpl in Hg', Hs, Hp.
  rewrite (IH t' store' Hg'), Hs, Hp. now rewrite <- app_assoc.
Qed.

Lemma interleave_pending (w : World) (schedule : list bool) :
  forall (t1 t2 : Task) (store : list Chunk),
    pastGuard t1 = true -> pastGuard t2 = true ->
    let '(t1', t2', store') := interleave w schedule t1 t2 store in
    Permutation (store' ++ pending w t1' ++ pending w t2')
                (store ++ pending w t1 ++ pending w t2).
Proof.
  induction schedule as [|who schedule IH]; intros t1 t2 store H1 H2;
    [simpl; reflexivity|].
  destruct who; simpl.
  - destruct (resume_pastGuard w t2 store H2) as (Hg & pushed & Hs & Hp).
    destruct (resume w t2 store) as [t2' store']. simpl in Hg, Hs, Hp.
    specialize (IH t1 t2' store' H1 Hg).
    destruct (interleave w schedule t1 t2' store') as [[u1 u2] final].
    eapply Permutation_trans; [exact IH|].
    rewrite Hs, Hp, <- !app_assoc.
    apply Permutation_app_head.
    rewrite !app_assoc. apply Permutation_app_tail, Permutation_app_comm.
  - destruct (resume_pastGuard w t1 store H1) as (Hg & pushed & Hs & Hp).
    destruct (resume w t1 store) as [t1' store']. simpl in Hg, Hs, Hp.
    specialize (IH t1' t2 store' Hg H2).
    destruct (interleave w schedule t1' t2 store') as [[u1 u2] final].
    eapply Permutation_trans; [exact IH|].
    rewrite Hs, Hp, <- !app_assoc. reflexivity.
Qed.

Lemma buildsStarted_pastGuard (w : World) (schedule : list bool) :
  forall (t1 t2 : Task) (store : list Chunk),
    pastGuard t1 = true -> pastGuard t2 = true ->
    buildsStarted w schedule t1 t2 store = 0%nat.
Proof.
  induction schedule as [|who schedule IH]; intros t1 t2 store H1 H2;
    [reflexivity|].
  destruct who; simpl.
  - pose proof (resume_leaves_guard w t2 store) as Hg.
    destruct (resume w t2 store) as [t2' store']. simpl in Hg.
    rewrite (IH t1 t2' store' H1 Hg).
    destruct t2; try discriminate; reflexivity.
  - pose proof (resume_leaves_guard w t1 store) as Hg.
    destruct (resume w t1 store) as [t1' store']. simpl in Hg.
    rewrite (IH t1' t2 store' Hg H2).
    destruct t1; try discriminate; reflexivity.
Qed.

(** While only the first call runs, the two-call run is the lone run. *)
Lemma interleave_first_only (w : World) (n : nat) (rest : list bool) (t2 : Task) :
  forall (t1 : Task) (store : list Chunk),
    interleave w (repeat false n ++ rest) t1 t2 store
    = interleave w rest (fst (runAlone w n t1 store)) t2
                 (snd (runAlone w n t1 store)).
Proof.
  induction n as [|n IH]; intros t1 store; [reflexivity|].
  simpl. destruct (resume w t1 store) as [t1' store']. apply IH.
Qed.

Lemma buildsStarted_first_only (w : World) (n : nat) (rest : list bool)
      (t2 : Task) :
  forall (t1 : Task) (store : list Chunk),
    pastGuard t1 = true ->
    buildsStarted w (repeat false n ++ rest) t1 t2 store
    = buildsStarted w rest (fst (runAlone w n t1 store)) t2
                    (snd (runAlone w n t1 store)).
Proof.
  induction n as [|n IH]; intros t1 store Hg; [reflexivity|].
  simpl. pose proof (resume_leaves_guard w t1 store) as Hg'.
  destruct (resume w t1 store) as [t1' store']. simpl in Hg'.
  rewrite (IH t1' store' Hg').
  destruct t1; try discriminate; reflexivity.
Qed.

(** X15.  In every world and for every list of files: let the first call
    have run some segments without pushing anything yet when the second
    call enters.  Then two builds are started, and however the segments
    interleave from there, once both calls have ended the store holds the
    chunks of one build twice over -- the same chunks with the same
    multiplicities as two copies of a lone build. *)
Theorem concurrent_builds_duplicate_every_chunk
        (w : World) (filePaths : list jsString)
        (lead : nat) (schedule : list bool) (t1 t1' t2' : Task)
        (store : list Chunk) :
  runAlone w (S lead) (Entered filePaths) [] = (t1, []) ->
  interleave w (true :: schedule) t1 (Entered filePaths) [] = (t1', t2', store) ->
  finished t1' = true -> finished t2' = true ->
  let single :=
    vectorStore (snd (loadKnowledgeBase w filePaths (mkState [] []))) in
  Permutation store (single ++ single)
  /\ interleave w (repeat false (S lead) ++ true :: schedule)
                (Entered filePaths) (Entered filePaths) []
     = (t1', t2', store)
  /\ buildsStarted w (repeat false (S lead) ++ true :: schedule)
                   (Entered filePaths) (Entered filePaths) [] = 2%nat.
Proof.
  intros Hlead Hrun F1 F2 single. subst single.
  rewrite loadKnowledgeBase_builds.
  assert (Hlead' : runAlone w lead (enterFiles w filePaths) [] = (t1, []))
    by exact Hlead.
  pose proof (pastGuard_enterFiles w filePaths) as G0.
  destruct (runAlone_pastGuard w lead (enterFiles w filePaths) [] G0) as [G1 _].
  pose proof (runAlone_pending w lead (enterFiles w filePaths) [] G0) as L1.
  rewrite Hlead' in G1, L1. simpl in G1, L1. rewrite pending_enterFiles in L1.
  split; [|split].
  - simpl in Hrun.
    pose proof (interleave_pending w schedule t1 (enterFiles w filePaths) []
                  G1 G0) as H.
    rewrite Hrun in H.
    rewrite (pending_finished w t1' F1), (pending_finished w t2' F2),
      pending_enterFiles, L1, !app_nil_r in H.
    exact H.
  - rewrite interleave_first_only, Hlead. exact Hrun.
  - change (repeat false (S lead) ++ true :: schedule)
      with (false :: (repeat false lead ++ true :: schedule)).
    cbn [buildsStarted resume length Nat.ltb Nat.leb].
    rewrite (buildsStarted_first_only w lead (true :: schedule)
               (Entered filePaths) (enterFiles w filePaths) [] G0).
    rewrite Hlead'. cbn [fst snd buildsStarted resume length Nat.ltb Nat.leb].
    now rewrite (buildsStarted_pastGuard w schedule t1 (enterFiles w filePaths)
                   [] G1 G0).
Qed.

Lemma concurrent_builds_duplicate_every_chunk_witness :
  let w := Sample.answering in
  let chunk := mkChunk [1; 0] Sample.knowledge (lit "knowledge.txt") in
  Permutation [chunk; chunk]
    (vectorStore (snd (loadKnowledgeBase w (KNOWLEDGE_FILES w) (mkState [] [])))
     ++ vectorStore (snd (loadKnowledgeBase w (KNOWLEDGE_FILES w) (mkState [] []))))
  /\ interleave w (repeat false 2 ++ [true; true; false; true])
                (Entered (KNOWLEDGE_FILES w)) (Entered (KNOWLEDGE_FILES w)) []
     = (Returned, Returned, [chunk; chunk])
  /\ buildsStarted w (repeat false 2 ++ [true; true; false; true])
                   (Entered (KNOWLEDGE_FILES w)) (Entered (KNOWLEDGE_FILES w)) []
     = 2%nat.
Proof.
  intros w chunk.
  exact (@concurrent_builds_duplicate_every_chunk
           w (KNOWLEDGE_FILES w) 1 [true; false; true]
           (AtEmbed (lit "knowledge.txt") Sample.knowledge [] [])
           Returned Returned [chunk; chunk]
           eq_refl eq_refl eq_refl eq_refl).
Defined.

(** X16.  A call that enters when the store already holds a chunk returns
    at its first segment and never pushes: under every schedule the other
    call proceeds exactly as if it ran alone, for as many segments as the
    schedule gives it. *)
Theorem late_call_returns_at_once
        (w : World) (filePaths : list jsString) (schedule : list bool)
        (t1 : Task) (store : list Chunk) :
  store <> [] ->
  let segments := length (filter negb schedule) in
  interleave w schedule t1 (Entered filePaths) store
  = (fst (runAlone w segments t1 store),
     if existsb (fun who => who) schedule then Returned else Entered filePaths,
     snd (runAlone w segments t1 store)).
Proof.
  intros Hstore segments. subst segments.
  assert (Hreturned : forall schedule t1 store,
             interleave w schedule t1 Returned store
             = (fst (runAlone w (length (filter negb schedule)) t1 store),
                Returned,
                snd (runAlone w (length (filter negb schedule)) t1 store))).
  { clear. induction schedule as [|who schedule IH]; intros t1 store;
      [reflexivity|].
    destruct who; simpl; [apply IH|].
    destruct (resume w t1 store) as [t1' store']. apply IH. }
  revert t1 store Hstore.
  induction schedule as [|who schedule IH]; intros t1 store Hstore;
    [reflexivity|].
  destruct who; simpl.
  - destruct store as [|c store]; [congruence|]. simpl. apply Hreturned.
  - destruct (resume_grows w t1 store) as (pushed & Hs).
    destruct (resume w t1 store) as [t1' store']. simpl in Hs.
    apply IH. rewrite Hs. destruct store; [congruence | discriminate].
Qed.

Lemma late_call_returns_at_once_witness :
  let w := Sample.answering in
  let chunk := mkChunk [1; 0] Sample.knowledge (lit "knowledge.txt") in
  interleave w [false; true; false]
             (AtEmbed (lit "knowledge.txt") Sample.knowledge
                      [Sample.knowledge] [])
             (Entered (KNOWLEDGE_FILES w)) [chunk]
  = (Returned, Returned, [chunk; chunk; chunk]).
Proof.
  intros w chunk.
  refine (@late_call_returns_at_once w (KNOWLEDGE_FILES w) [false; true; false]
            (AtEmbed (lit "knowledge.txt") Sample.knowledge
                     [Sample.knowledge] [])
            [chunk] _).
  discriminate.
Defined.

(** X17.  Each call starts at most one build, and none on a store that
    holds a chunk: under every schedule the number of builds started is at
    most the number of calls still before the guard, and it is zero when
    the store is not empty. *)
Theorem buildsStarted_bound (w : World) (schedule : list bool)
        (t1 t2 : Task) (store : list Chunk) :
  (buildsStarted w schedule t1 t2 store
   <= (if pastGuard t1 then 0 else 1) + (if pastGuard t2 then 0 else 1))%nat
  /\ (store <> [] -> buildsStarted w schedule t1 t2 store = 0%nat).
Proof.
  split.
  - revert t1 t2 store.
    induction schedule as [|who schedule IH]; intros t1 t2 store;
      [simpl; lia|].
    destruct who; simpl.
    + pose proof (resume_leaves_guard w t2 store) as Hg.
      destruct (resume w t2 store) as [t2' store']. simpl in Hg.
      specialize (IH t1 t2' store'). rewrite Hg in IH.
      destruct t2; simpl; try lia.
      destruct (0 <? length store)%nat; lia.
    + pose proof (resume_leaves_guard w t1 store) as Hg.
      destruct (resume w t1 store) as [t1' store']. simpl in Hg.
      specialize (IH t1' t2 store'). rewrite Hg in IH.
      destruct t1; simpl; try lia.
      destruct (0 <? length store)%nat; lia.
  - revert t1 t2 store.
    induction schedule as [|who schedule IH]; intros t1 t2 store Hstore;
      [reflexivity|].
    assert (Hlen : (0 <? length store)%nat = true)
      by (destruct store; [congruence | reflexivity]).
    destruct who; simpl.
    + destruct (resume_grows w t2 store) as (pushed & Hs).
      destruct (resume w t2 store) as [t2' store']. simpl in Hs.
      rewrite IH by (rewrite Hs; destruct store; [congruence | discriminate]).
      rewrite Hlen. now destruct t2.
    + destruct (resume_grows w t1 store) as (pushed & Hs).
      destruct (resume w t1 store) as [t1' store']. simpl in Hs.
      rewrite IH by (rewrite Hs; destruct store; [congruence | discriminate]).
      rewrite Hlen. now destruct t1.
Qed.

(** *** One record of another dimension *)

Lemma scoreAll_Throw (q : list float) (store : list Chunk) :
  (exists c, In c store /\ length (embedding c) <> length q) ->
  scoreAll q store = Throw (Error (lit "Vectors must have the same length")).
Proof.
  induction store as [|c store IH]; intros (c' & Hin & Hlen);
    [destruct Hin|].
  simpl. unfold cosineSimilarity.
  destruct (length q =? length (embedding c))%nat eqn:E; cbn [negb];
    [|reflexivity].
  apply Nat.eqb_eq in E.
  destruct Hin as [-> | Hin]; [congruence|].
  fold (cosineValue q (embedding c)).
  now rewrite IH by (exists c'; auto).
Qed.

Lemma scoreAll_Throw_inv (q : list float) (store : list Chunk) (e : jsError) :
  scoreAll q store = Throw e ->
  e = Error (lit "Vectors must have the same length")
  /\ exists c, In c store /\ length (embedding c) <> length q.
Proof.
  induction store as [|c store IH]; intros H; simpl in H; [discriminate|].
  unfold cosineSimilarity in H.
  destruct (length q =? length (embedding c))%nat eqn:E; cbn [negb] in H.
  - destruct (scoreAll q store) as [scored|e'] eqn:Hs; [discriminate|].
    injection H as ->. destruct (IH eq_refl) as (He & c' & Hin & Hlen).
    split; [exact He|]. exists c'. split; [now right | exact Hlen].
  - injection H as <-. split; [reflexivity|].
    exists c. split; [now left|]. apply Nat.eqb_neq in E. congruence.
Qed.

(** X18.  When the embedding model answers the query, a search throws
    exactly when the store holds a record whose embedding has another
    length than the query's, and the error is then the one of
    [cosineSimilarity], whatever [topK] and the threshold: one such record
    anywhere in the store fails the whole search, also when it would not
    have been among the results. *)
Theorem findRelevantChunks_throws_on_other_length
        (w : World) (question : jsString) (topK : Z) (threshold : float)
        (s : State) (q : list float)
        (Hq : embedQuery w question = Normal q) :
  ((exists e, fst (findRelevantChunks w question topK threshold s) = Throw e)
   <-> exists c, In c (vectorStore s) /\ length (embedding c) <> length q)
  /\ (forall e,
         fst (findRelevantChunks w question topK threshold s) = Throw e ->
         e = Error (lit "Vectors must have the same length")).
Proof.
  rewrite findRelevantChunks_run, Hq. cbn [fst].
  split; [split|].
  - intros (e & He).
    destruct (scoreAll q (vectorStore s)) as [scored|e'] eqn:Hs;
      [discriminate|].
    now apply scoreAll_Throw_inv in Hs.
  - intros H. rewrite (scoreAll_Throw q (vectorStore s) H). eauto.
  - intros e He.
    destruct (scoreAll q (vectorStore s)) as [scored|e'] eqn:Hs;
      [discriminate|].
    injection He as <-. now apply scoreAll_Throw_inv in Hs.
Qed.

Lemma findRelevantChunks_throws_on_other_length_witness :
  let s := mkState [ mkChunk [1; 0] Sample.knowledge (lit "knowledge.txt");
                     mkChunk [1] (lit "Shipping takes a week.")
                             (lit "knowledge.txt") ] [] in
  fst (findRelevantChunks Sample.answering Sample.question 1
                          default_threshold s)
  = Throw (Error (lit "Vectors must have the same length")).
Proof.
  intros s.
  destruct (@findRelevantChunks_throws_on_other_length
              Sample.answering Sample.question 1 default_threshold s
              [0x1.8p-1; 0x1p-1] eq_refl) as [[_ Hthrows] Herror].
  destruct Hthrows as (e & He).
  - exists (mkChunk [1] (lit "Shipping takes a week.") (lit "knowledge.txt")).
    split; [right; left; reflexivity | discriminate].
  - rewrite He. f_equal. exact (Herror e He).
Defined.

(** X19.  A store that holds a chunk is never rebuilt, so a record whose
    embedding has another length than the query's fails the request for
    good: a valid query is answered with status 500 and the generic text,
    after the validation, classification and query-embedding calls and
    without a chat call, and the store is left as it was. *)
Theorem ask_other_length_is_500
        (w : World) (query raw rawRole : jsString) (q : list float)
        (c : Chunk) (s : State)
        (Hquery : query <> [])
        (Hraw : validationChain w query = Normal raw)
        (Hlabel : toLowerCase (unicodeLower w) (trim raw) = lit "valid")
        (Hrole : roleChain w query = Normal rawRole)
        (Hq : embedQuery w query = Normal q)
        (Hin : In c (vectorStore s))
        (Hlen : length (embedding c) <> length q) :
  ask w (Some query) s
  = (Normal (Send 500 internalFailure),
     mkState (vectorStore s)
             (calls s ++ [CallValidation query; CallRole query;
                          CallEmbed query])).
Proof.
  assert (Hstore : vectorStore s <> [])
    by (destruct (vectorStore s); [destruct Hin | discriminate]).
  eapply ask_fault_inside_try with (e := Error (lit "Vectors must have the same length"));
    [exact Hquery | |].
  - rewrite validateQuestion_run, Hraw, Hlabel, string_eqb_refl. reflexivity.
  - unfold askBody, bind. rewrite classifyRole_run, Hrole. cbv zeta.
    rewrite loadKnowledgeBase_ready by exact Hstore.
    rewrite findRelevantChunks_run, Hq. cbn [vectorStore calls].
    rewrite (scoreAll_Throw q (vectorStore s)) by (exists c; auto).
    now rewrite <- !app_assoc.
Qed.

Lemma ask_other_length_is_500_witness :
  let s := mkState [ mkChunk [1; 0] Sample.knowledge (lit "knowledge.txt");
                     mkChunk [1] (lit "Shipping takes a week.")
                             (lit "knowledge.txt") ] [] in
  ask Sample.answering (Some Sample.question) s
  = (Normal (Send 500 internalFailure),
     mkState (vectorStore s)
             [CallValidation Sample.question; CallRole Sample.question;
              CallEmbed Sample.question]).
Proof.
  intros s.
  refine (@ask_other_length_is_500
            Sample.answering Sample.question (lit "valid") (lit "sales_agent")
            [0x1.8p-1; 0x1p-1]
            (mkChunk [1] (lit "Shipping takes a week.") (lit "knowledge.txt"))
            s _ eq_refl eq_refl eq_refl eq_refl _ _).
  - discriminate.
  - right; left; reflexivity.
  - discriminate.
Defined.
